(** * bookdata.db: SQL script engine and stage/file ledger

    A shallow embedding of [bookdata/db.py]: the directive parser of
    [SqlScript], the statement classifier [describe_statement], the chunk
    executor [SqlScript.execute] / [_run_step] over a psycopg2 connection,
    and the ledger operations [save_file], [start_stage], [finish_stage].

    Text is modelled with [string]; a character is a code point below 256.
    Python exceptions are values of [PyExc]; a computation that may raise
    returns a [Res]. *)

From Stdlib Require Import String Ascii List Bool Arith NArith ZArith Lia.
Import ListNotations.
Local Open Scope string_scope.
Local Open Scope list_scope.

(** ** Python exceptions and results *)

(** The exception classes that the functions of [db.py] can meet.
    [PgError] is [psycopg2.Error] (and its subclasses) with its [pgcode]
    attribute, which is [None] for errors raised on the client side. *)
Inductive PyExc : Type :=
| PgError (pgcode : option string)
| KeyError (key : option string)
| AttributeError (msg : string)
| ValueError (msg : string)
| TypeError (msg : string)
| OSError (msg : string).

Inductive Res (A : Type) : Type :=
| OK (a : A)
| Raise (e : PyExc).
Arguments OK {A} a.
Arguments Raise {A} e.

(** ** Characters and the two regular expressions of [SqlScript] *)

Definition code_of (c : ascii) : N := N_of_ascii c.

(** [str.isspace] and the regex class [\s] on code points below 256. *)
Definition is_space (c : ascii) : bool :=
  let n := code_of c in
  ((9 <=? n) && (n <=? 13) || (28 <=? n) && (n <=? 32)
   || (n =? 133) || (n =? 160))%N.

(** The regex class [\w] (alphanumeric or underscore) on code points
    below 256. *)
Definition is_word (c : ascii) : bool :=
  let n := code_of c in
  ((48 <=? n) && (n <=? 57) || (65 <=? n) && (n <=? 90)
   || (97 <=? n) && (n <=? 122) || (n =? 95)
   || (n =? 170) || (n =? 178) || (n =? 179) || (n =? 181)
   || (n =? 185) || (n =? 186) || (188 <=? n) && (n <=? 190)
   || (192 <=? n) && (n <=? 214) || (216 <=? n) && (n <=? 246)
   || (248 <=? n) && (n <=? 255))%N.

Definition newline : ascii := "010"%char.
Definition nl : string := String newline "".
Definition is_newline (c : ascii) : bool := (code_of c =? 10)%N.

Fixpoint drop_while (p : ascii -> bool) (s : string) : string :=
  match s with
  | String c r => if p c then drop_while p r else s
  | EmptyString => EmptyString
  end.

Fixpoint take_while (p : ascii -> bool) (s : string) : string :=
  match s with
  | String c r => if p c then String c (take_while p r) else EmptyString
  | EmptyString => EmptyString
  end.

Fixpoint str_forallb (p : ascii -> bool) (s : string) : bool :=
  match s with
  | String c r => p c && str_forallb p r
  | EmptyString => true
  end.

(** Removes the trailing characters that satisfy [p]. *)
Fixpoint drop_while_end (p : ascii -> bool) (s : string) : string :=
  match s with
  | String c r =>
      match drop_while_end p r with
      | EmptyString => if p c then EmptyString else String c EmptyString
      | r' => String c r'
      end
  | EmptyString => EmptyString
  end.

(** [_sep_re], the pattern [^---\s*] followed by the group [inst] of any
    characters, used with [match]: the line starts with three dashes;
    [\s*] takes the whole run of white space that follows (a line break
    included) and [inst] is what follows up to the next line break, which
    the dot does not match. The result is the group [inst], or [None]
    when the line does not match. *)
Definition _sep_re (line : string) : option string :=
  match line with
  | String "-" (String "-" (String "-" rest)) =>
      Some (take_while (fun c => negb (is_newline c)) (drop_while is_space rest))
  | _ => None
  end.

(** [_icode_re], the pattern [#], group [code] = [\w+], [\s*], optional
    group [args] = any characters ending in [\S], [\s*], end of string,
    used with [match] on the group [inst], which holds no line break.
    [code] is the longest run of word characters after the [#] and must
    not be empty; [\s*] takes the white space after it; [args] is what
    remains with its trailing white space removed, and is unset ([None])
    when nothing remains. The result is [(code, args)]. *)
Definition _icode_re (inst : string) : option (string * option string) :=
  match inst with
  | String "#" rest =>
      match take_while is_word rest with
      | EmptyString => None
      | code =>
          match drop_while_end is_space
                  (drop_while is_space (drop_while is_word rest)) with
          | EmptyString => Some (code, None)
          | args => Some (code, Some args)
          end
      end
  | _ => None
  end.

(** ** Script chunks *)

(** [ScriptChunk]: [label] and [src] are [None] while the header is being
    read. *)
Record ScriptChunk : Type := mkChunk {
  label : option string;
  allowed_errors : list string;
  src : option string;
  use_transaction : bool
}.

(** What [_parse_chunk] returns: a chunk, [False] for an empty chunk, or
    [None] at the end of the input. *)
Inductive ChunkResult : Type :=
| GotChunk (c : ScriptChunk)
| EmptyChunk
| EndOfFile.

Fixpoint concat_sep (sep : string) (ls : list string) : string :=
  match ls with
  | [] => ""
  | [l] => l
  | l :: r => (l ++ sep ++ concat_sep sep r)%string
  end.

(** [str(n)] for a natural number. *)
Definition digit_of (n : nat) : ascii := ascii_of_nat (48 + n).

Fixpoint decimal_aux (fuel n : nat) (acc : string) : string :=
  match fuel with
  | 0 => acc
  | S f =>
      let acc' := String (digit_of (n mod 10)) acc in
      if Nat.eqb (n / 10) 0 then acc' else decimal_aux f (n / 10) acc'
  end.

Definition str_of_nat (n : nat) : string := decimal_aux (S n) n "".

(** Iterating over a text file: each line keeps its line break; the last
    line may have none. *)
Fixpoint iter_lines_aux (cur : string) (s : string) : list string :=
  match s with
  | EmptyString => match cur with EmptyString => [] | _ => [cur] end
  | String c r =>
      if is_newline c then (cur ++ String c "")%string :: iter_lines_aux "" r
      else iter_lines_aux (cur ++ String c "")%string r
  end.

Definition iter_lines (text : string) : list string := iter_lines_aux "" text.

Definition is_blank (line : string) : bool := str_forallb is_space line.

Fixpoint drop_blank (ls : list string) : list string :=
  match ls with
  | l :: r => if is_blank l then drop_blank r else ls
  | [] => []
  end.

Definition drop_blank_end (ls : list string) : list string :=
  rev (drop_blank (rev ls)).

Section Parser.

(** [psycopg2.errorcodes] is not part of the repository: [getattr] on
    that module is taken as a parameter, [None] standing for the
    [AttributeError] of a missing attribute; so is [str.upper]. *)
Variable errorcodes_getattr : string -> option string.
Variable str_upper : string -> string.

(** The loop of [_read_header] from the state [(label, errs, tx)];
    [lines] is the peekable iterator, returned with what was not eaten. *)
Fixpoint _read_header_from (lbl : option string) (errs : list string)
         (tx : bool) (lines : list string)
  : Res (ScriptChunk * list string) :=
  match lines with
  | [] => OK (mkChunk lbl errs None tx, [])
  | line :: rest =>
      match _sep_re line with
      | None => OK (mkChunk lbl errs None tx, lines)
      | Some inst =>
          match _icode_re inst with
          | None => _read_header_from lbl errs tx rest
          | Some (code, args) =>
              if String.eqb code "step" then
                _read_header_from args errs tx rest
              else if String.eqb code "allow" then
                match args with
                | None =>
                    Raise (AttributeError
                      "'NoneType' object has no attribute 'upper'")
                | Some a =>
                    match errorcodes_getattr (str_upper a) with
                    | None =>
                        Raise (AttributeError
                          ("module 'psycopg2.errorcodes' has no attribute '"
                             ++ str_upper a ++ "'")%string)
                    | Some err =>
                        _read_header_from lbl (errs ++ [err]) tx rest
                    end
                end
              else if String.eqb code "notx" then
                _read_header_from lbl errs false rest
              else
                Raise (ValueError ("invalid query instruction " ++ code)%string)
          end
      end
  end.

Definition _read_header (lines : list string)
  : Res (ScriptChunk * list string) :=
  _read_header_from None [] true lines.

(** The first loop of [_read_query]: the lines up to the next separator
    line, and what is left of the iterator. *)
Fixpoint read_query_lines (lines : list string)
  : list string * list string :=
  match lines with
  | [] => ([], [])
  | line :: rest =>
      match _sep_re line with
      | Some _ => ([], lines)
      | None =>
          let (qls, rest') := read_query_lines rest in (line :: qls, rest')
      end
  end.

(** [_read_query]: [None] is the end of the file. *)
Definition _read_query (lines : list string)
  : option (list string) * list string :=
  let (qls, rest) := read_query_lines lines in
  let qls := drop_blank_end (drop_blank qls) in
  match qls, rest with
  | [], [] => (None, rest)
  | _, _ => (Some qls, rest)
  end.

Definition _parse_chunk (lines : list string) (n : nat)
  : Res (ChunkResult * list string) :=
  match _read_header lines with
  | Raise e => Raise e
  | OK (chunk, lines1) =>
      let (qlines, lines2) := _read_query lines1 in
      match qlines with
      | Some (q :: qs) =>
          let lbl := match label chunk with
                     | None => Some ("Step " ++ str_of_nat n)%string
                     | Some l => Some l
                     end in
          OK (GotChunk (mkChunk lbl (allowed_errors chunk)
                          (Some (concat_sep nl (q :: qs)))
                          (use_transaction chunk)), lines2)
      | Some [] => OK (EmptyChunk, lines2)
      | None => OK (EndOfFile, lines2)
      end
  end.

(** The loop of [_parse]; [fuel] bounds the number of iterations and
    [None] means that it ran out. *)
Fixpoint _parse_loop (fuel : nat) (lines : list string)
         (chunks : list ScriptChunk) : option (Res (list ScriptChunk)) :=
  match fuel with
  | 0 => None
  | S fuel' =>
      match _parse_chunk lines (length chunks + 1) with
      | Raise e => Some (Raise e)
      | OK (EndOfFile, _) => Some (OK chunks)
      | OK (EmptyChunk, rest) => _parse_loop fuel' rest chunks
      | OK (GotChunk c, rest) => _parse_loop fuel' rest (chunks ++ [c])
      end
  end.

Definition _parse (lines : list string) : option (Res (list ScriptChunk)) :=
  _parse_loop (S (length lines)) lines [].

(** [SqlScript(file)] for a file object holding [text]. *)
Definition SqlScript (text : string) : option (Res (list ScriptChunk)) :=
  _parse (iter_lines text).

End Parser.

(** ** Parsed statements and the statement classifier *)

(** The token types of sqlparse that [db.py] tests for; a grouped token
    ([Identifier], [Function], ...) has no token type. *)
Inductive TokenType : Type :=
| Whitespace | Comment | Keyword | DDL | DML | CTE
| Name | Punctuation | Wildcard | Literal | Operator.

Inductive TokenClass : Type :=
| Leaf | Identifier | Function | Parenthesis | CommentGroup | OtherGroup.

Record Token : Type := mkToken {
  ttype : option TokenType;
  cls : TokenClass;
  normalized : string
}.

(** A statement as [sqlparse.parse] returns it: its top-level tokens and
    the values of its methods [get_type()], [get_real_name()] and
    [str()]. *)
Record Statement : Type := mkStatement {
  tokens : list Token;
  get_type : string;
  get_real_name : option string;
  str : string
}.

Definition ttype_eqb (a b : TokenType) : bool :=
  match a, b with
  | Whitespace, Whitespace | Comment, Comment | Keyword, Keyword
  | DDL, DDL | DML, DML | CTE, CTE | Name, Name
  | Punctuation, Punctuation | Wildcard, Wildcard | Literal, Literal
  | Operator, Operator => true
  | _, _ => false
  end.

Definition has_ttype (t : Token) (ty : TokenType) : bool :=
  match ttype t with
  | Some ty' => ttype_eqb ty' ty
  | None => false
  end.

Definition is_whitespace (t : Token) : bool := has_ttype t Whitespace.

Definition is_comment (t : Token) : bool :=
  has_ttype t Comment
  || match cls t with CommentGroup => true | _ => false end.

(** [s.token_next(idx, skip_ws=True, skip_cm=True)], with [start] the
    index [idx + 1] from which the search goes: the first token that is
    neither white space nor a comment, with its index. *)
Fixpoint token_next_in (toks : list Token) (i : nat) : option (nat * Token) :=
  match toks with
  | [] => None
  | t :: r =>
      if is_whitespace t || is_comment t then token_next_in r (S i)
      else Some (i, t)
  end.

Definition token_next (s : Statement) (start : nat) : option (nat * Token) :=
  token_next_in (skipn start (tokens s)) start.

(** The generator [_tokens(s, start)], [start] again being the index from
    which the search goes: every later token that [token_next] finds. *)
Definition _tokens (s : Statement) (start : nat) : list Token :=
  filter (fun t => negb (is_whitespace t || is_comment t))
         (skipn start (tokens s)).

Definition is_identifier_or_function (t : Token) : bool :=
  match cls t with
  | Identifier | Function => true
  | _ => false
  end.

(** The loop over the tokens of a DDL statement, with its variables
    [parts], [first] and [skipping]. *)
Fixpoint ddl_parts (first skipping : bool) (parts : list string)
         (ts : list Token) : list string :=
  match ts with
  | [] => parts
  | t :: r =>
      if negb first && is_identifier_or_function t then
        parts ++ [normalized t]
      else if negb first && negb (has_ttype t Keyword) then
        parts
      else
        let skipping' := skipping || String.eqb (normalized t) "IF" in
        let parts' := if skipping' then parts else parts ++ [normalized t] in
        ddl_parts false skipping' parts' r
  end.

(** The leading keywords collected for a statement of unknown type. *)
Fixpoint leading_keywords (ts : list Token) : list string :=
  match ts with
  | [] => []
  | t :: r =>
      if has_ttype t Keyword then normalized t :: leading_keywords r else []
  end.

(** [describe_statement(s)]; [None] is Python's [None]. *)
Definition describe_statement (s : Statement) : option string :=
  match token_next s 0 with
  | None => None
  | Some (li, lt) =>
      if has_ttype lt DDL then
        Some (get_type s ++ " "
                ++ concat_sep " " (ddl_parts true false [] (_tokens s (S li))))%string
      else if String.eqb (get_type s) "UNKNOWN" then
        let ls := leading_keywords (_tokens s 0) in
        let lbl := match ls with
                   | [] => get_type s
                   | _ => concat_sep " " ls
                   end in
        match get_real_name s with
        | Some (String c r) => Some (lbl ++ " " ++ String c r)%string
        | _ => Some lbl
        end
      else Some (get_type s)
  end.

(** [is_empty(s)] *)
Definition is_empty (s : Statement) : bool :=
  match token_next s 0 with
  | None => true
  | Some _ => false
  end.

(** *** The statements of the classifier's golden cases, as sqlparse
    tokenizes them; [rest] is what follows the name. *)

Definition ws : Token := mkToken (Some Whitespace) Leaf " ".
Definition kw (ty : TokenType) (s : string) : Token := mkToken (Some ty) Leaf s.
Definition ident (s : string) : Token := mkToken None Identifier s.

Definition create_table_foo (rest : list Token) (text : string) : Statement :=
  mkStatement
    ([kw DDL "CREATE"; ws; kw Keyword "TABLE"; ws; kw Keyword "IF"; ws;
      kw Keyword "NOT"; ws; kw Keyword "EXISTS"; ws; ident "foo"] ++ rest)
    "CREATE" (Some "foo") text.

Definition select_from_t : Statement :=
  mkStatement
    [kw DML "SELECT"; ws; mkToken (Some Wildcard) Leaf "*"; ws;
     kw Keyword "FROM"; ws; ident "t"]
    "SELECT" (Some "t") "SELECT * FROM t".

Definition insert_into_bar (rest : list Token) (text : string) : Statement :=
  mkStatement
    ([kw DML "INSERT"; ws; kw Keyword "INTO"; ws; ident "bar"] ++ rest)
    "INSERT" (Some "bar") text.

(** ** Computations over a state that may raise *)

Definition M (S A : Type) : Type := S -> Res A * S.

Definition ret {S A : Type} (a : A) : M S A := fun s => (OK a, s).

Definition raise {S A : Type} (e : PyExc) : M S A := fun s => (Raise e, s).

Definition bind {S A B : Type} (m : M S A) (f : A -> M S B) : M S B :=
  fun s =>
    match m s with
    | (OK a, s') => f a s'
    | (Raise e, s') => (Raise e, s')
    end.

Declare Scope py_scope.
Delimit Scope py_scope with py.
Notation "x <- m ;; k" := (bind m (fun x => k))
  (at level 61, m at next level, right associativity) : py_scope.
Notation "m ;; k" := (bind m (fun _ => k))
  (at level 61, right associativity) : py_scope.
Local Open Scope py_scope.

(** [try: body finally: final]: an exception of [final] replaces the
    outcome of [body]. *)
Definition try_finally {S A : Type} (body : M S A) (final : M S unit)
  : M S A :=
  fun s =>
    match body s with
    | (r, s') =>
        match final s' with
        | (OK _, s'') => (r, s'')
        | (Raise e, s'') => (Raise e, s'')
        end
    end.

(** [try: body except ...: handler]; the handler answers [None] for an
    exception that its [except] clause does not catch. *)
Definition try_except {S A : Type} (body : M S A)
           (handler : PyExc -> option (M S A)) : M S A :=
  fun s =>
    match body s with
    | (OK a, s') => (OK a, s')
    | (Raise e, s') =>
        match handler e with
        | Some h => h s'
        | None => (Raise e, s')
        end
    end.

(** ** A psycopg2 connection to a PostgreSQL server *)

Section Psycopg.

(** The database state, the statements sent to it and the lines written
    to a transcript. The server runs one statement on a database state
    and answers with the new state and the row count, or with the
    SQLSTATE of the error, in which case the statement changes
    nothing. *)
Variables DB Sql Out : Type.
Variable run_sql : Sql -> DB -> (DB * Z) + string.

(** The state of the server-side transaction of the connection: none
    open, one open with its uncommitted state, or one that failed and
    accepts nothing but its end. *)
Inductive TxStatus : Type :=
| Idle
| InTransaction (work : DB)
| InError.

(** The world of a run: the committed database, the connection [dbc]
    with its transaction and [autocommit] attribute, every statement
    passed to [cursor.execute] so far, and the transcript written so
    far. *)
Record World : Type := mkWorld {
  committed : DB;
  status : TxStatus;
  autocommit : bool;
  sent : list Sql;
  transcript_out : list Out
}.

Definition set_status (w : World) (st : TxStatus) : World :=
  mkWorld (committed w) st (autocommit w) (sent w) (transcript_out w).

Definition set_committed (w : World) (d : DB) : World :=
  mkWorld d (status w) (autocommit w) (sent w) (transcript_out w).

Definition add_sent (w : World) (q : Sql) : World :=
  mkWorld (committed w) (status w) (autocommit w) (sent w ++ [q])
          (transcript_out w).

(** The database state that a statement of the connection sees. *)
Definition visible (w : World) : DB :=
  match status w with
  | InTransaction d => d
  | _ => committed w
  end.

Definition in_failed_sql_transaction : string := "25P02".

(** [cur.execute(q)], returning [cur.rowcount]. Without autocommit the
    first statement opens a transaction; a failed statement leaves the
    transaction in error, and a statement sent to a transaction in
    error fails in turn. With autocommit every statement is committed
    when it succeeds. *)
Definition cursor_execute (q : Sql) : M World Z :=
  fun w0 =>
    let w := add_sent w0 q in
    match status w with
    | InError => (Raise (PgError (Some in_failed_sql_transaction)), w)
    | InTransaction d =>
        match run_sql q d with
        | inl (d', n) => (OK n, set_status w (InTransaction d'))
        | inr code => (Raise (PgError (Some code)), set_status w InError)
        end
    | Idle =>
        match run_sql q (committed w) with
        | inl (d', n) =>
            if autocommit w then (OK n, set_committed w d')
            else (OK n, set_status w (InTransaction d'))
        | inr code =>
            if autocommit w then (Raise (PgError (Some code)), w)
            else (Raise (PgError (Some code)), set_status w InError)
        end
    end.

(** [dbc.commit()]: PostgreSQL answers the [COMMIT] of a transaction in
    error by rolling the transaction back, and psycopg2 raises nothing
    for it. *)
Definition commit : M World unit :=
  fun w =>
    match status w with
    | InTransaction d => (OK tt, set_status (set_committed w d) Idle)
    | _ => (OK tt, set_status w Idle)
    end.

(** [dbc.rollback()] *)
Definition rollback : M World unit :=
  fun w => (OK tt, set_status w Idle).

(** [with dbc: body]: commit when the body ends normally, roll back and
    raise again when it raises. *)
Definition with_connection {A : Type} (body : M World A) : M World A :=
  fun w =>
    match body w with
    | (OK a, w') => (a' <- commit ;; ret a) w'
    | (Raise e, w') => (rollback ;; raise e) w'
    end.

(** [with dbc.cursor() as cur: body]: closing the cursor changes neither
    the transaction nor the database. *)
Definition with_cursor {A : Type} (body : M World A) : M World A := body.

(** Reading and setting [dbc.autocommit]; psycopg2 refuses to set it
    inside a transaction, with a [ProgrammingError] that has no
    [pgcode]. *)
Definition get_autocommit : M World bool :=
  fun w => (OK (autocommit w), w).

Definition set_autocommit (b : bool) : M World unit :=
  fun w =>
    match status w with
    | Idle => (OK tt, mkWorld (committed w) (status w) b (sent w)
                             (transcript_out w))
    | _ => (Raise (PgError None), w)
    end.

(** [print(..., file=transcript)] when a transcript is given. *)
Definition print (transcript : bool) (line : Out) : M World unit :=
  fun w =>
    if transcript then
      (OK tt, mkWorld (committed w) (status w) (autocommit w) (sent w)
                      (transcript_out w ++ [line]))
    else (OK tt, w).

End Psycopg.

Arguments Idle {DB}.
Arguments InError {DB}.
Arguments InTransaction {DB} work.
Arguments mkWorld {DB Sql Out}.
Arguments committed {DB Sql Out}.
Arguments status {DB Sql Out}.
Arguments autocommit {DB Sql Out}.
Arguments sent {DB Sql Out}.
Arguments transcript_out {DB Sql Out}.
Arguments set_status {DB Sql Out}.
Arguments set_committed {DB Sql Out}.
Arguments add_sent {DB Sql Out}.
Arguments visible {DB Sql Out}.
Arguments cursor_execute {DB Sql Out}.
Arguments commit {DB Sql Out}.
Arguments rollback {DB Sql Out}.
Arguments with_connection {DB Sql Out A}.
Arguments with_cursor {DB Sql Out A}.
Arguments get_autocommit {DB Sql Out}.
Arguments set_autocommit {DB Sql Out}.
Arguments print {DB Sql Out}.

(** ** Executing a script *)

(** The lines of the transcript; the elapsed time of [ELAPSED] is left
    out. *)
Inductive TranscriptLine : Type :=
| CHUNK (lbl : option string)
| STMT (lbl : option string)
| ELAPSED
| ROWS (n : Z)
| ERROR (code : option string) (name : string).

(** What [_log.info] receives from [describe]. *)
Inductive LogRecord : Type :=
| LogChunk (lbl : option string)
| LogStatement (lbl : option string).

(** The values that [describe] could return: [None], or a sequence of
    pairs of a chunk label and a statement label. *)
Inductive PyValue : Type :=
| PyNone
| PyPairs (pairs : list (option string * option string)).

Section Executor.

(** The database behind the connection, [sqlparse.parse], and the table
    of [psycopg2.errorcodes.lookup], which raises [KeyError] for a code
    that it does not hold ([None] here). *)
Variable DB : Type.
Variable run_sql : string -> DB -> (DB * Z) + string.
Variable sqlparse_parse : string -> list Statement.
Variable errorcodes_lookup : string -> option string.

Definition Run : Type := World DB string TranscriptLine.

(** The property [ScriptChunk.statements] *)
Definition statements (step : ScriptChunk) : Res (list Statement) :=
  match src step with
  | Some text =>
      OK (filter (fun s => negb (is_empty s)) (sqlparse_parse text))
  | None => Raise (TypeError "expected string or bytes-like object")
  end.

Definition lookup (pgcode : option string) : M Run string :=
  match pgcode with
  | Some c =>
      match errorcodes_lookup c with
      | Some name => ret name
      | None => raise (KeyError (Some c))
      end
  | None => raise (KeyError None)
  end.

(** [e.pgcode in step.allowed_errors] *)
Definition pgcode_in (pgcode : option string) (allowed : list string)
  : bool :=
  match pgcode with
  | Some c => existsb (String.eqb c) allowed
  | None => false
  end.

(** The [for sql in step.statements] loop of [_run_step]. *)
Fixpoint run_statements (transcript : bool) (stmts : list Statement)
  : M Run unit :=
  match stmts with
  | [] => ret tt
  | sql :: more =>
      print transcript (STMT (describe_statement sql)) ;;
      rows <- cursor_execute run_sql (str sql) ;;
      print transcript ELAPSED ;;
      (if (0 <=? rows)%Z then print transcript (ROWS rows) else ret tt) ;;
      run_statements transcript more
  end.

Definition _run_step (step : ScriptChunk) (do_commit transcript : bool)
  : M Run unit :=
  try_except
    (match statements step with
     | Raise e => raise e
     | OK stmts =>
         run_statements transcript stmts ;;
         if do_commit then commit else ret tt
     end)
    (fun e =>
       match e with
       | PgError pgcode =>
           Some
             (if pgcode_in pgcode (allowed_errors step) then
                _ <- lookup pgcode ;;
                if transcript then
                  name <- lookup pgcode ;;
                  print transcript (ERROR pgcode name)
                else ret tt
              else
                _ <- lookup pgcode ;;
                raise e)
       | _ => None
       end).

(** [SqlScript.execute], over the chunks that remain to be run. *)
Fixpoint execute (chunks : list ScriptChunk) (transcript : bool)
  : M Run unit :=
  match chunks with
  | [] => ret tt
  | step :: later =>
      print transcript (CHUNK (label step)) ;;
      (if use_transaction step then
         with_connection (with_cursor (_run_step step true transcript))
       else
         ac <- get_autocommit ;;
         try_finally
           (set_autocommit true ;;
            with_cursor (_run_step step false transcript))
           (set_autocommit ac)) ;;
      execute later transcript
  end.

(** *** [SqlScript.describe] *)

(** [describe] takes no connection: its only effect is on the log, so
    its state is the list of records logged so far. Having no [return],
    it returns [None]. *)
Definition log_info (r : LogRecord) : M (list LogRecord) unit :=
  fun log => (OK tt, log ++ [r]).

Fixpoint describe_statements (stmts : list Statement)
  : M (list LogRecord) unit :=
  match stmts with
  | [] => ret tt
  | s :: more =>
      log_info (LogStatement (describe_statement s)) ;;
      describe_statements more
  end.

Fixpoint describe_loop (chunks : list ScriptChunk)
  : M (list LogRecord) unit :=
  match chunks with
  | [] => ret tt
  | step :: later =>
      log_info (LogChunk (label step)) ;;
      match statements step with
      | Raise e => raise e
      | OK stmts => describe_statements stmts ;; describe_loop later
      end
  end.

Definition describe (chunks : list ScriptChunk)
  : M (list LogRecord) PyValue :=
  describe_loop chunks ;; ret PyNone.

(** The sequence of pairs that the specification of [describe] speaks
    of: one pair of chunk label and statement label for every statement
    that is not empty, in the order of the chunks and of the source. *)
Definition describe_pairs_spec (chunks : list ScriptChunk)
  : list (option string * option string) :=
  flat_map
    (fun step =>
       match statements step with
       | OK stmts => map (fun s => (label step, describe_statement s)) stmts
       | Raise _ => []
       end)
    chunks.

End Executor.

(** The pairs that a log holds: every statement record with the label of
    the chunk record before it. *)
Fixpoint pairs_of_log (cur : option string) (log : list LogRecord)
  : list (option string * option string) :=
  match log with
  | [] => []
  | LogChunk l :: r => pairs_of_log l r
  | LogStatement d :: r => (cur, d) :: pairs_of_log cur r
  end.

(** ** The stage and file ledger *)

(** The rows of [stage_status], [source_file] and [stage_file]. *)
Record StageRow : Type := mkStageRow {
  stage_name : string;
  started_at : Z;
  finished_at : option Z;
  stage_key : option string
}.

Record FileRow : Type := mkFileRow {
  filename : string;
  reg_time : Z;
  checksum : string
}.

Record Ledger : Type := mkLedger {
  stage_status : list StageRow;
  source_file : list FileRow;
  stage_file : list (string * string)
}.

(** The statements that the ledger operations send, with their
    parameters. *)
Inductive LedgerSql : Type :=
| InsertSourceFile (fn hash : string)
| InsertStageFile (stage fn : string)
| InsertStageStatus (stage : string)
| DeleteStageFile (stage : string)
| UpdateStageStatus (stage : string) (key : option string).

Definition foreign_key_violation : string := "23503".
Definition unique_violation : string := "23505".

Definition has_stage (l : Ledger) (stage : string) : bool :=
  existsb (fun r => String.eqb (stage_name r) stage) (stage_status l).

Definition has_file (l : Ledger) (fn : string) : bool :=
  existsb (fun r => String.eqb (filename r) fn) (source_file l).

Definition has_stage_file (l : Ledger) (stage fn : string) : bool :=
  existsb (fun p => String.eqb (fst p) stage && String.eqb (snd p) fn)
          (stage_file l).

Definition count_rows {A : Type} (p : A -> bool) (rows : list A) : Z :=
  Z.of_nat (length (filter p rows)).

(** What the server does with a statement when [now()] is [now]:
    - [INSERT INTO source_file ... ON CONFLICT (filename) DO UPDATE SET
      reg_time = now(), checksum = ...]; [reg_time] defaults to the
      current time;
    - [INSERT INTO stage_file], which references both other tables and
      is keyed by its two columns;
    - [INSERT INTO stage_status ... ON CONFLICT (stage_name) DO UPDATE
      SET started_at = now(), finished_at = NULL, stage_key = NULL];
    - [DELETE FROM stage_file WHERE stage_name = ...];
    - [UPDATE stage_status SET finished_at = NOW(), stage_key = ...
      WHERE stage_name = ...]. *)
Definition run_ledger_sql (q : Z * LedgerSql) (l : Ledger)
  : (Ledger * Z) + string :=
  let now := fst q in
  match snd q with
  | InsertSourceFile fn hash =>
      let rows :=
        if has_file l fn then
          map (fun r => if String.eqb (filename r) fn
                        then mkFileRow fn now hash else r) (source_file l)
        else source_file l ++ [mkFileRow fn now hash] in
      inl (mkLedger (stage_status l) rows (stage_file l), 1%Z)
  | InsertStageFile stage fn =>
      if negb (has_stage l stage) || negb (has_file l fn) then
        inr foreign_key_violation
      else if has_stage_file l stage fn then inr unique_violation
      else inl (mkLedger (stage_status l) (source_file l)
                         (stage_file l ++ [(stage, fn)]), 1%Z)
  | InsertStageStatus stage =>
      let rows :=
        if has_stage l stage then
          map (fun r => if String.eqb (stage_name r) stage
                        then mkStageRow stage now None None else r)
              (stage_status l)
        else stage_status l ++ [mkStageRow stage now None None] in
      inl (mkLedger rows (source_file l) (stage_file l), 1%Z)
  | DeleteStageFile stage =>
      inl (mkLedger (stage_status l) (source_file l)
             (filter (fun p => negb (String.eqb (fst p) stage)) (stage_file l)),
           count_rows (fun p => String.eqb (fst p) stage) (stage_file l))
  | UpdateStageStatus stage key =>
      inl (mkLedger
             (map (fun r => if String.eqb (stage_name r) stage
                            then mkStageRow stage (started_at r) (Some now) key
                            else r) (stage_status l))
             (source_file l) (stage_file l),
           count_rows (fun r => String.eqb (stage_name r) stage)
                      (stage_status l))
  end.

(** The handle that [start_stage] and [finish_stage] receive: a cursor,
    or a psycopg2 connection, which has a [cursor] method and no
    [execute] method. *)
Inductive Handle : Type :=
| ACursor
| AConnection.

Definition hasattr_cursor (h : Handle) : bool :=
  match h with
  | AConnection => true
  | ACursor => false
  end.

Section LedgerOps.

(** The MD5 digest in hexadecimal, [Path(path).as_posix()] and the
    content of the files are taken as parameters; a file that cannot be
    opened has no content. *)
Variable md5_hexdigest : list Byte.byte -> string.
Variable as_posix : string -> string.

Definition LedgerWorld : Type := World Ledger (Z * LedgerSql) unit.

Definition block_size : nat := N.to_nat (8192 * 4).

(** The reading loop of [save_file]: [h] is what the hash object was
    fed, [data] the block just read and [f] what is left of the file;
    [None] when [fuel] runs out. *)
Fixpoint read_blocks (fuel : nat) (h data f : list Byte.byte)
  : option (list Byte.byte) :=
  match fuel with
  | 0 => None
  | S fuel' =>
      match data with
      | [] => Some h
      | _ => read_blocks fuel' (h ++ data) (firstn block_size f)
                         (skipn block_size f)
      end
  end.

Definition file_hash (content : list Byte.byte) : option string :=
  match read_blocks (S (length content)) []
                    (firstn block_size content)
                    (skipn block_size content) with
  | Some fed => Some (md5_hexdigest fed)
  | None => None
  end.

Definition handle_execute (h : Handle) (now : Z) (q : LedgerSql)
  : M LedgerWorld Z :=
  match h with
  | ACursor => cursor_execute run_ledger_sql (now, q)
  | AConnection =>
      raise (AttributeError
        "'psycopg2.extensions.connection' object has no attribute 'execute'")
  end.

(** [save_file(cur, path, stage)] on the cursor [cur], with the files
    [fs] and the server time [now]; [None] when the reading loop runs
    out of fuel. *)
Definition save_file (fs : string -> option (list Byte.byte)) (now : Z)
           (path : string) (stage : option string)
  : option (M LedgerWorld unit) :=
  match fs path with
  | None => Some (raise (OSError "No such file or directory"))
  | Some content =>
      match file_hash content with
      | None => None
      | Some hash =>
          let path := as_posix path in
          Some
            (handle_execute ACursor now (InsertSourceFile path hash) ;;
             match stage with
             | Some (String c r) =>
                 handle_execute ACursor now
                   (InsertStageFile (String c r) path) ;;
                 ret tt
             | _ => ret tt
             end)
      end
  end.

(** The statements of [start_stage], which follow its [if]. *)
Definition start_stage_statements (h : Handle) (now : Z) (stage : string)
  : M LedgerWorld unit :=
  handle_execute h now (InsertStageStatus stage) ;;
  handle_execute h now (DeleteStageFile stage) ;;
  ret tt.

(** [start_stage(cur, stage)]. The call of itself inside the [with]
    receives a cursor, which has no [cursor] attribute, and so runs the
    statements alone; after the [with] the function goes on with its
    own statements on [cur]. *)
Definition start_stage (cur : Handle) (now : Z) (stage : string)
  : M LedgerWorld unit :=
  (if hasattr_cursor cur then
     with_connection
       (with_cursor (start_stage_statements ACursor now stage))
   else ret tt) ;;
  start_stage_statements cur now stage.

Definition finish_stage_statements (h : Handle) (now : Z) (stage : string)
           (key : option string) : M LedgerWorld unit :=
  handle_execute h now (UpdateStageStatus stage key) ;;
  ret tt.

(** [finish_stage(cur, stage, key)], built like [start_stage]. *)
Definition finish_stage (cur : Handle) (now : Z) (stage : string)
           (key : option string) : M LedgerWorld unit :=
  (if hasattr_cursor cur then
     with_connection
       (with_cursor (finish_stage_statements ACursor now stage key))
   else ret tt) ;;
  finish_stage_statements cur now stage key.

End LedgerOps.

(** ** Predicates of the specification *)

(** The two Python exceptions that a malformed directive raises: the
    configuration errors of the parser. *)
Definition ConfigurationError (e : PyExc) : Prop :=
  match e with
  | ValueError _ | AttributeError _ => True
  | _ => False
  end.

(** The instruction text starts with [#] and a word character. *)
Definition starts_with_code (inst : string) : bool :=
  match inst with
  | String "#" (String c _) => is_word c
  | _ => false
  end.

Definition is_sep (line : string) : bool :=
  match _sep_re line with Some _ => true | None => false end.

(** A directive that the header phase rejects: an [allow] without a name
    or with a name that does not resolve, or an instruction code other
    than [step], [allow] and [notx]. *)
Definition bad_directive (errorcodes_getattr : string -> option string)
           (str_upper : string -> string) (line : string) : bool :=
  match _sep_re line with
  | None => false
  | Some inst =>
      match _icode_re inst with
      | None => false
      | Some (code, args) =>
          if String.eqb code "step" then false
          else if String.eqb code "allow" then
            match args with
            | None => true
            | Some a =>
                match errorcodes_getattr (str_upper a) with
                | None => true
                | Some _ => false
                end
            end
          else if String.eqb code "notx" then false
          else true
      end
  end.

(** The database sees a statement succeed from [d] on: every statement
    of [qs] runs without an error, one after the other. *)
Fixpoint run_ok {DB : Type} (run_sql : string -> DB -> (DB * Z) + string)
         (qs : list string) (d : DB) : option DB :=
  match qs with
  | [] => Some d
  | q :: r =>
      match run_sql q d with
      | inl (d', _) => run_ok run_sql r d'
      | inr _ => None
      end
  end.

(** What [describe] logs for the chunks. *)
Definition describe_log (sqlparse_parse : string -> list Statement)
           (chunks : list ScriptChunk) : list LogRecord :=
  flat_map
    (fun step =>
       LogChunk (label step)
       :: match statements sqlparse_parse step with
          | OK stmts => map (fun s => LogStatement (describe_statement s)) stmts
          | Raise _ => []
          end)
    chunks.

(** ** Instances for the examples *)

(** [str.upper] on the letters a to z. *)
Definition ascii_upper_char (c : ascii) : ascii :=
  let n := code_of c in
  if ((97 <=? n) && (n <=? 122))%N then ascii_of_N (n - 32) else c.

Fixpoint ascii_upper (s : string) : string :=
  match s with
  | EmptyString => EmptyString
  | String c r => String (ascii_upper_char c) (ascii_upper r)
  end.

(** Three entries of [psycopg2.errorcodes]. *)
Definition pg_errorcodes : list (string * string) :=
  [("UNIQUE_VIOLATION", "23505"); ("UNDEFINED_TABLE", "42P01");
   ("DUPLICATE_TABLE", "42P07")].

Definition pg_getattr (name : string) : option string :=
  match find (fun p => String.eqb (fst p) name) pg_errorcodes with
  | Some p => Some (snd p)
  | None => None
  end.

Definition pg_lookup (code : string) : option string :=
  match find (fun p => String.eqb (snd p) code) pg_errorcodes with
  | Some p => Some (fst p)
  | None => None
  end.

(** A database that records the statements it ran; it answers the
    statement [INSERT INTO t VALUES (1)] with a unique violation, and
    the statement [SELECT fail()] with the SQLSTATE [ZZ001] that the
    function raises. *)
Definition journal_run_sql (q : string) (d : list string)
  : (list string * Z) + string :=
  if String.eqb q "INSERT INTO t VALUES (1)" then inr "23505"
  else if String.eqb q "SELECT fail()" then inr "ZZ001"
  else inl (d ++ [q], 1%Z).

(** A parser that takes every line of the text for a statement. *)
Definition line_statement (line : string) : Statement :=
  let text := drop_while_end is_space line in
  mkStatement
    (match text with
     | EmptyString => []
     | _ => [mkToken (Some DML) Leaf (take_while is_word text)]
     end)
    (take_while is_word text) None text.

Definition parse_by_line (text : string) : list Statement :=
  map line_statement (iter_lines text).

Definition idle_world {DB Sql Out : Type} (d : DB) : World DB Sql Out :=
  mkWorld d Idle false [] [].

(** The label mentions the target [bar]. *)
Definition mentions_bar (lbl : option string) : Prop :=
  exists l n, lbl = Some l /\ index 0 "bar" l = Some n.

(** A chunk of one statement, for the examples of [describe]. *)
Definition select_chunk : ScriptChunk :=
  mkChunk (Some "load") [] (Some "SELECT 1") true.

(** The rows of [stage_file] for a stage and of [source_file] for a file
    name. *)
Definition stage_file_rows (l : Ledger) (stage : string)
  : list (string * string) :=
  filter (fun p => String.eqb (fst p) stage) (stage_file l).

Definition source_file_rows (l : Ledger) (fn : string) : list FileRow :=
  filter (fun r => String.eqb (filename r) fn) (source_file l).

(** The primary key of [source_file]: no two rows with one file name. *)
Definition source_file_key (l : Ledger) : Prop :=
  NoDup (map filename (source_file l)).

Definition empty_ledger : Ledger := mkLedger [] [] [].

(** A digest and a path normalisation for the examples, and a directory
    with the one file [f.txt]. *)
Definition length_digest (content : list Byte.byte) : string :=
  str_of_nat (length content).

Definition same_path (path : string) : string := path.

Definition one_file (content : list Byte.byte) (path : string)
  : option (list Byte.byte) :=
  if String.eqb path "f.txt" then Some content else None.

(** A script whose first chunk allows the unique violation that its
    second statement meets, and a script whose first chunk meets an
    error with a SQLSTATE of the application's own. *)
Definition tolerant_script : string :=
  "--- #step load" ++ nl ++ "--- #allow unique_violation" ++ nl
  ++ "CREATE TABLE t (x int)" ++ nl ++ "INSERT INTO t VALUES (1)" ++ nl
  ++ "--- #step next" ++ nl ++ "SELECT 1".

Definition tolerant_load : ScriptChunk :=
  mkChunk (Some "load") ["23505"]
    (Some ("CREATE TABLE t (x int)" ++ nl ++ nl
           ++ "INSERT INTO t VALUES (1)" ++ nl)%string) true.

Definition tolerant_next : ScriptChunk :=
  mkChunk (Some "next") [] (Some "SELECT 1") true.

Definition failing_script : string :=
  "--- #step load" ++ nl ++ "CREATE TABLE t (x int)" ++ nl
  ++ "SELECT fail()" ++ nl
  ++ "--- #step sentinel" ++ nl ++ "CREATE TABLE sentinel (x int)".

Definition failing_chunks : list ScriptChunk :=
  [mkChunk (Some "load") []
     (Some ("CREATE TABLE t (x int)" ++ nl ++ nl ++ "SELECT fail()" ++ nl)%string)
     true;
   mkChunk (Some "sentinel") [] (Some "CREATE TABLE sentinel (x int)") true].

(** ** Further predicates on scripts *)

(** The instruction of a line, when the line is a separator whose text
    [_icode_re] matches. *)
Definition directive (line : string) : option (string * option string) :=
  match _sep_re line with
  | Some inst => _icode_re inst
  | None => None
  end.

Definition is_step_directive (line : string) : bool :=
  match directive line with
  | Some (code, _) => String.eqb code "step"
  | None => false
  end.

(** What a run of accepted header lines says: the label of its last
    [step] directive, the codes of its [allow] directives in order, and
    whether it has a [notx] directive. *)
Definition header_label (lbl : option string) (hdr : list string)
  : option string :=
  fold_left
    (fun l line =>
       match directive line with
       | Some (code, args) => if String.eqb code "step" then args else l
       | None => l
       end)
    hdr lbl.

Definition header_allowed (errorcodes_getattr : string -> option string)
           (str_upper : string -> string) (hdr : list string) : list string :=
  flat_map
    (fun line =>
       match directive line with
       | Some (code, Some a) =>
           if String.eqb code "allow" then
             match errorcodes_getattr (str_upper a) with
             | Some err => [err]
             | None => []
             end
           else []
       | _ => []
       end)
    hdr.

Definition header_notx (hdr : list string) : bool :=
  existsb
    (fun line =>
       match directive line with
       | Some (code, _) => String.eqb code "notx"
       | None => false
       end)
    hdr.



(** The lines of a script that are neither separators nor blank. *)
Definition sql_lines (lines : list string) : list string :=
  filter (fun l => negb (is_blank l)) (filter (fun l => negb (is_sep l)) lines).

(** The rounds of the loop of [_parse] from the lines [lines] on, the
    next chunk being chunk number [n]: [news] are the chunks that the
    loop adds before it meets the end of the input. *)
Inductive parse_rounds (errorcodes_getattr : string -> option string)
          (str_upper : string -> string)
  : nat -> list string -> list ScriptChunk -> Prop :=
| rounds_end n lines rest :
    _parse_chunk errorcodes_getattr str_upper lines n = OK (EndOfFile, rest) ->
    parse_rounds errorcodes_getattr str_upper n lines []
| rounds_empty n lines rest news :
    _parse_chunk errorcodes_getattr str_upper lines n = OK (EmptyChunk, rest) ->
    parse_rounds errorcodes_getattr str_upper n rest news ->
    parse_rounds errorcodes_getattr str_upper n lines news
| rounds_chunk n lines rest c news :
    _parse_chunk errorcodes_getattr str_upper lines n = OK (GotChunk c, rest) ->
    parse_rounds errorcodes_getattr str_upper (S n) rest news ->
    parse_rounds errorcodes_getattr str_upper n lines (c :: news).

(** [_read_query]'s trimming of the lines of a body. *)
Definition trim_blank (q : list string) : list string :=
  drop_blank_end (drop_blank q).

(** The chunk that [_parse_chunk] makes of a header run and a body. *)
Definition chunk_of (errorcodes_getattr : string -> option string)
           (str_upper : string -> string) (n : nat)
           (hdr body : list string) : ScriptChunk :=
  mkChunk
    (match header_label None hdr with
     | None => Some ("Step " ++ str_of_nat n)%string
     | Some l => Some l
     end)
    (header_allowed errorcodes_getattr str_upper hdr)
    (Some (concat_sep nl body))
    (negb (header_notx hdr)).

(** A script of two bodies and no [step] directive. *)
Definition unlabelled_script : string :=
  "SELECT 1;" ++ nl ++ "---" ++ nl ++ "--- #notx" ++ nl ++ "SELECT 2;".

Definition unlabelled_chunks : list ScriptChunk :=
  [mkChunk (Some "Step 1") [] (Some ("SELECT 1;" ++ nl)%string) true;
   mkChunk (Some "Step 2") [] (Some "SELECT 2;") false].

(** A keyword token that is no group. *)
Definition plain_keyword (t : Token) : bool :=
  has_ttype t Keyword && negb (is_identifier_or_function t).

(** ** Further predicates on runs *)

(** The texts of the statements of the chunks, in the order in which
    [execute] sends them. *)
Definition script_statements (sqlparse_parse : string -> list Statement)
           (chunks : list ScriptChunk) : list string :=
  flat_map
    (fun step =>
       match statements sqlparse_parse step with
       | OK stmts => map str stmts
       | Raise _ => []
       end)
    chunks.

(** Two worlds with the same database and connection; they may differ
    in their transcripts. *)
Definition same_connection {DB Sql Out : Type} (w1 w2 : World DB Sql Out)
  : Prop :=
  committed w1 = committed w2 /\ status w1 = status w2
  /\ autocommit w1 = autocommit w2 /\ sent w1 = sent w2.

(** Two computations that, from worlds with the same connection, have
    the same outcome and leave the same connection. *)
Definition same_run {DB Sql Out A : Type} (m1 m2 : M (World DB Sql Out) A)
  : Prop :=
  forall w1 w2,
    same_connection w1 w2 ->
    fst (m1 w1) = fst (m2 w2)
    /\ same_connection (snd (m1 w1)) (snd (m2 w2)).

(** A computation that writes nothing to the transcript. *)
Definition silent {DB Sql Out A : Type} (m : M (World DB Sql Out) A) : Prop :=
  forall w, transcript_out (snd (m w)) = transcript_out w.

(** The first chunk of the first example script, run outside a
    transaction, and the first chunk of the second example script,
    likewise. *)
Definition tolerant_load_notx : ScriptChunk :=
  mkChunk (Some "load") ["23505"]
    (Some ("CREATE TABLE t (x int)" ++ nl ++ nl
           ++ "INSERT INTO t VALUES (1)" ++ nl)%string) false.

Definition strict_load_notx : ScriptChunk :=
  mkChunk (Some "load") []
    (Some ("CREATE TABLE t (x int)" ++ nl ++ nl
           ++ "INSERT INTO t VALUES (1)" ++ nl)%string) false.

(** ** Further predicates on the ledger *)

Definition stage_rows (l : Ledger) (stage : string) : list StageRow :=
  filter (fun r => String.eqb (stage_name r) stage) (stage_status l).

(** The primary key of [stage_status]. *)
Definition stage_status_key (l : Ledger) : Prop :=
  NoDup (map stage_name (stage_status l)).

(** A ledger that satisfies the keys of [stage_status] and
    [source_file] and the two references of [stage_file]. *)
Definition ledger_wf (l : Ledger) : Prop :=
  stage_status_key l
  /\ source_file_key l
  /\ Forall (fun p => In (fst p) (map stage_name (stage_status l))
                      /\ In (snd p) (map filename (source_file l)))
            (stage_file l).

(** ** The connection string *)

(** [os.environ] *)
Definition Environ : Type := string -> option string.

(** [db_url()] in the environment [environ]; the [KeyError] is that of
    [os.environ['PGDATABASE']]. *)
Definition db_url (environ : Environ) : Res string :=
  match environ "DB_URL" with
  | Some url => OK url
  | None =>
      let host := match environ "PGHOST" with
                  | Some h => h
                  | None => "localhost"
                  end in
      let port := environ "PGPORT" in
      match environ "PGDATABASE" with
      | None => Raise (KeyError (Some "PGDATABASE"))
      | Some db =>
          let user := environ "PGUSER" in
          let pw := environ "PGPASSWORD" in
          let url := "postgresql://" in
          let url :=
            match user with
            | Some (String c u) =>
                let url := (url ++ String c u)%string in
                let url :=
                  match pw with
                  | Some (String c' p) => (url ++ ":" ++ String c' p)%string
                  | _ => url
                  end in
                (url ++ "@")%string
            | _ => url
            end in
          let url := (url ++ host)%string in
          let url :=
            match port with
            | Some (String c p) => (url ++ ":" ++ String c p)%string
            | _ => url
            end in
          OK (url ++ "/" ++ db)%string
      end
  end.

(** The environment with one more variable set. *)
Definition setenv (environ : Environ) (name value : string) : Environ :=
  fun n => if String.eqb n name then Some value else environ n.

Definition only_database (name : string) : option string :=
  if String.eqb name "PGDATABASE" then Some "bookdata" else None.

(** * Properties *)

(** ** The parser *)

Section ParserProperties.

Variable errorcodes_getattr : string -> option string.
Variable str_upper : string -> string.

Abbreviation read_header_from := (_read_header_from errorcodes_getattr str_upper).
Abbreviation read_header := (_read_header errorcodes_getattr str_upper).
Abbreviation parse_chunk := (_parse_chunk errorcodes_getattr str_upper).
Abbreviation parse_loop := (_parse_loop errorcodes_getattr str_upper).
Abbreviation parse := (_parse errorcodes_getattr str_upper).
Abbreviation bad := (bad_directive errorcodes_getattr str_upper).

Ltac rejected :=
  left; split; [reflexivity | eexists; split; [reflexivity | exact I]].
Ltac eaten :=
  right; split; [reflexivity | do 3 eexists; reflexivity].

Lemma bad_directive_is_sep line : bad line = true -> is_sep line = true.
Proof.
  unfold bad_directive, is_sep. destruct (_sep_re line); congruence.
Qed.

Lemma icode_none_iff inst :
  _icode_re inst = None <-> starts_with_code inst = false.
Proof.
  unfold _icode_re, starts_with_code.
  destruct inst as [|a rest]; [tauto|].
  destruct (Ascii.eqb_spec a "#") as [->|Hne].
  - destruct rest as [|c r]; simpl; [tauto|].
    destruct (is_word c); simpl.
    + split; [|discriminate].
      destruct (drop_while_end is_space (drop_while is_space (drop_while is_word r)));
        discriminate.
    + tauto.
  - assert (forall (X : Type) (x y : X),
               match a with "#"%char => x | _ => y end = y) as E.
    { intros X x y.
      destruct a as [[] [] [] [] [] [] [] []]; try reflexivity.
      exfalso; apply Hne; reflexivity. }
    rewrite !E. tauto.
Qed.

(** One separator line in the header phase: a rejected directive raises
    a configuration error, any other separator line is eaten and the
    loop goes on. *)
Lemma read_header_from_step line rest lbl errs tx :
  is_sep line = true ->
  (bad line = true
   /\ exists e, read_header_from lbl errs tx (line :: rest) = Raise e
                /\ ConfigurationError e)
  \/ (bad line = false
      /\ exists l' e' t',
        read_header_from lbl errs tx (line :: rest)
        = read_header_from l' e' t' rest).
Proof.
  unfold is_sep, bad_directive. simpl.
  destruct (_sep_re line) as [inst|]; [intros _|discriminate].
  destruct (_icode_re inst) as [[code args]|]; [|eaten].
  destruct (String.eqb code "step"); [eaten|].
  destruct (String.eqb code "allow").
  { destruct args as [a|]; [|rejected].
    destruct (errorcodes_getattr (str_upper a)); [eaten|rejected]. }
  destruct (String.eqb code "notx"); [eaten|rejected].
Qed.

(** What the header phase does with the lines it is given: it eats a run
    of separator lines, none of them rejected, and stops at the end or
    before a line that is no separator; it raises only for a rejected
    directive, and then a configuration error. *)
Lemma read_header_from_spec lines :
  forall lbl errs tx,
    match read_header_from lbl errs tx lines with
    | OK (c, rest) =>
        src c = None /\
        (exists hdr, lines = hdr ++ rest
                     /\ forallb is_sep hdr = true
                     /\ existsb bad hdr = false)
        /\ match rest with [] => True | l :: _ => is_sep l = false end
    | Raise e => ConfigurationError e /\ existsb bad lines = true
    end.
Proof.
  induction lines as [|line rest IH]; intros lbl errs tx.
  - simpl. split; [reflexivity|]. split; [exists []; auto | exact I].
  - destruct (is_sep line) eqn:Hsep.
    + destruct (read_header_from_step line rest lbl errs tx Hsep)
        as [(Hb & e & -> & He) | (Hb & l' & e' & t' & ->)].
      * split; [exact He|]. simpl. rewrite Hb. reflexivity.
      * specialize (IH l' e' t').
        destruct (read_header_from l' e' t' rest) as [[c rest0]|e0].
        -- destruct IH as (Hs & (hdr & -> & Hh & Hbd) & Hr).
           split; [exact Hs|]. split; [|exact Hr].
           exists (line :: hdr). simpl. rewrite Hsep, Hb, Hh, Hbd. auto.
        -- destruct IH as (He & Hex). split; [exact He|].
           simpl. rewrite Hex. apply orb_true_r.
    + unfold is_sep in Hsep. simpl.
      destruct (_sep_re line) eqn:E; [discriminate|].
      split; [reflexivity|]. split.
      * exists []. auto.
      * unfold is_sep. rewrite E. reflexivity.
Qed.

(** The body phase takes the lines up to the next separator line. *)
Lemma read_query_lines_spec lines :
  forall q rest,
    read_query_lines lines = (q, rest) ->
    lines = q ++ rest
    /\ forallb (fun l => negb (is_sep l)) q = true
    /\ match rest with [] => True | l :: _ => is_sep l = true end.
Proof.
  induction lines as [|line more IH]; intros q rest; simpl.
  - intros [= <- <-]. auto.
  - unfold is_sep at 1. destruct (_sep_re line) eqn:Hsep.
    + intros [= <- <-]. simpl. unfold is_sep. rewrite Hsep. auto.
    + destruct (read_query_lines more) as [q' rest'] eqn:Hq.
      intros [= <- <-]. destruct (IH _ _ eq_refl) as (-> & Hq' & Hr).
      simpl. unfold is_sep at 1. rewrite Hsep. simpl. auto.
Qed.

Lemma existsb_bad_no_sep q :
  forallb (fun l => negb (is_sep l)) q = true -> existsb bad q = false.
Proof.
  induction q as [|l q IH]; simpl; [reflexivity|].
  intros H. apply andb_true_iff in H as [Hl Hq].
  rewrite (IH Hq), orb_false_r.
  destruct (bad l) eqn:Hb; [|reflexivity].
  apply bad_directive_is_sep in Hb. rewrite Hb in Hl. discriminate.
Qed.

(** One round of [_parse_chunk]: it raises only a configuration error,
    for a rejected directive; otherwise it leaves the rejected directives
    among the remaining lines, eats at least one line unless it reports
    the end of the file, and reports the end only when nothing is left. *)
Lemma parse_chunk_spec lines n :
  match parse_chunk lines n with
  | OK (r, rest) =>
      existsb bad lines = existsb bad rest
      /\ match r with
         | EndOfFile => rest = []
         | _ => length rest < length lines
         end
  | Raise e => ConfigurationError e /\ existsb bad lines = true
  end.
Proof.
  unfold _parse_chunk, _read_header.
  pose proof (read_header_from_spec lines None [] true) as H.
  destruct (read_header_from None [] true lines) as [[c rest1]|e]; [|exact H].
  destruct H as (_ & (hdr & -> & Hh & Hb) & Hr1).
  unfold _read_query.
  destruct (read_query_lines rest1) as [q rest2] eqn:Hq.
  destruct (read_query_lines_spec _ _ _ Hq) as (-> & Hns & Hr2).
  rewrite !existsb_app, Hb, (existsb_bad_no_sep _ Hns). simpl.
  assert (Hlen : length rest2 <= length (hdr ++ q ++ rest2))
    by (rewrite !length_app; lia).
  destruct (drop_blank_end (drop_blank q)) as [|q0 qs] eqn:Hd.
  - destruct rest2 as [|l2 r2].
    + split; reflexivity.
    + split; [reflexivity|].
      destruct q as [|l q].
      * simpl in Hr1. rewrite Hr1 in Hr2. discriminate.
      * rewrite !length_app. simpl. lia.
  - split; [reflexivity|].
    destruct q as [|l q]; [discriminate|].
    rewrite !length_app. simpl. lia.
Qed.

(** [_parse] ends: with enough fuel the loop raises a configuration
    error when some line is a rejected directive and returns the chunks
    otherwise. *)
Lemma parse_loop_total fuel :
  forall lines chunks,
    length lines < fuel ->
    if existsb bad lines
    then exists e, parse_loop fuel lines chunks = Some (Raise e)
                   /\ ConfigurationError e
    else exists cs, parse_loop fuel lines chunks = Some (OK cs).
Proof.
  induction fuel as [|fuel IH]; intros lines chunks Hlen; [lia|].
  simpl. pose proof (parse_chunk_spec lines (length chunks + 1)) as H.
  destruct (parse_chunk lines (length chunks + 1)) as [[r rest]|e].
  - destruct H as (-> & Hr). destruct r.
    + apply IH. lia.
    + apply IH. lia.
    + subst rest. simpl. eauto.
  - destruct H as (He & ->). eauto.
Qed.


Lemma drop_blank_Forall (P : string -> Prop) q :
  Forall P q -> Forall P (drop_blank q).
Proof.
  induction 1 as [|l q Hl Hq IH]; simpl; [constructor|].
  destruct (is_blank l); [exact IH | constructor; assumption].
Qed.

Lemma drop_blank_end_Forall (P : string -> Prop) q :
  Forall P q -> Forall P (drop_blank_end q).
Proof.
  intros H. unfold drop_blank_end.
  apply Forall_rev, drop_blank_Forall, Forall_rev, H.
Qed.

Lemma read_query_no_separator lines q rest :
  _read_query lines = (Some q, rest) ->
  Forall (fun l => _sep_re l = None) q.
Proof.
  unfold _read_query.
  destruct (read_query_lines lines) as [q0 rest0] eqn:Hq.
  destruct (read_query_lines_spec _ _ _ Hq) as (_ & Hns & _).
  assert (H0 : Forall (fun l => _sep_re l = None) q0).
  { apply Forall_forall. intros l Hl.
    rewrite forallb_forall in Hns. specialize (Hns l Hl).
    unfold is_sep in Hns. destruct (_sep_re l); [discriminate | reflexivity]. }
  apply drop_blank_Forall, drop_blank_end_Forall in H0.
  destruct (drop_blank_end (drop_blank q0)) as [|a b];
    [destruct rest0|]; intros [= <- _]; assumption.
Qed.

(** The allowed errors of a parsed chunk are values of the table of
    error codes. *)
Lemma read_header_from_allowed lines :
  forall lbl errs tx c rest,
    Forall (fun code => exists name, errorcodes_getattr name = Some code) errs ->
    read_header_from lbl errs tx lines = OK (c, rest) ->
    Forall (fun code => exists name, errorcodes_getattr name = Some code)
           (allowed_errors c).
Proof.
  induction lines as [|line more IH]; intros lbl errs tx c rest Herrs; simpl.
  - intros [= <- _]. exact Herrs.
  - destruct (_sep_re line) as [inst|]; [|intros [= <- _]; exact Herrs].
    destruct (_icode_re inst) as [[code args]|]; [|apply IH, Herrs].
    destruct (String.eqb code "step"); [apply IH, Herrs|].
    destruct (String.eqb code "allow").
    { destruct args as [a|]; [|discriminate].
      destruct (errorcodes_getattr (str_upper a)) as [err|] eqn:E;
        [|discriminate].
      apply IH. apply Forall_app. split; [exact Herrs|].
      constructor; [eauto | constructor]. }
    destruct (String.eqb code "notx"); [apply IH, Herrs | discriminate].
Qed.

Lemma parse_loop_allowed fuel :
  forall lines chunks cs,
    Forall (fun c => Forall (fun code => exists name,
                                 errorcodes_getattr name = Some code)
                            (allowed_errors c)) chunks ->
    parse_loop fuel lines chunks = Some (OK cs) ->
    Forall (fun c => Forall (fun code => exists name,
                                 errorcodes_getattr name = Some code)
                            (allowed_errors c)) cs.
Proof.
  induction fuel as [|fuel IH]; intros lines chunks cs Hchunks;
    [discriminate|].
  simpl. unfold _parse_chunk, _read_header.
  destruct (read_header_from None [] true lines) as [[c rest1]|e] eqn:Hh;
    [|discriminate].
  apply read_header_from_allowed in Hh; [|constructor].
  destruct (_read_query rest1) as [[[|q qs]|] rest2].
  - apply IH, Hchunks.
  - apply IH. apply Forall_app. split; [exact Hchunks|].
    constructor; [exact Hh | constructor].
  - intros [= <-]. exact Hchunks.
Qed.

(** Every parsed chunk has a body. *)
Lemma parse_loop_src fuel :
  forall lines chunks cs,
    Forall (fun c => src c <> None) chunks ->
    parse_loop fuel lines chunks = Some (OK cs) ->
    Forall (fun c => src c <> None) cs.
Proof.
  induction fuel as [|fuel IH]; intros lines chunks cs Hchunks;
    [discriminate|].
  simpl. unfold _parse_chunk.
  destruct (read_header lines) as [[c rest1]|e]; [|discriminate].
  destruct (_read_query rest1) as [[[|q qs]|] rest2].
  - apply IH, Hchunks.
  - apply IH. apply Forall_app. split; [exact Hchunks|].
    constructor; [discriminate | constructor].
  - intros [= <-]. exact Hchunks.
Qed.

(** C4. For every text, parsing ends and either returns the list of
    chunks or raises a configuration error, which in the code is a
    [ValueError] or an [AttributeError]; no other exception leaves the
    parser. In particular a script with an [allow] directive whose name
    does not resolve in the table of error codes is rejected with a
    configuration error, the header loop raising [AttributeError] at
    that line, and so is a script with a directive whose instruction
    code is none of [step], [allow] and [notx], the header loop raising
    [ValueError] at that line. *)
Theorem parse_returns_chunks_or_configuration_error :
  (forall text,
      (exists chunks,
          SqlScript errorcodes_getattr str_upper text = Some (OK chunks))
      \/ (exists e,
             SqlScript errorcodes_getattr str_upper text = Some (Raise e)
             /\ ConfigurationError e))
  /\ (forall text line inst name,
         In line (iter_lines text) ->
         _sep_re line = Some inst ->
         _icode_re inst = Some ("allow", Some name) ->
         errorcodes_getattr (str_upper name) = None ->
         (exists e,
             SqlScript errorcodes_getattr str_upper text = Some (Raise e)
             /\ ConfigurationError e)
         /\ forall lbl errs tx rest,
             exists msg,
               read_header_from lbl errs tx (line :: rest)
               = Raise (AttributeError msg))
  /\ (forall text line inst code args,
         In line (iter_lines text) ->
         _sep_re line = Some inst ->
         _icode_re inst = Some (code, args) ->
         code <> "step" -> code <> "allow" -> code <> "notx" ->
         (exists e,
             SqlScript errorcodes_getattr str_upper text = Some (Raise e)
             /\ ConfigurationError e)
         /\ forall lbl errs tx rest,
             read_header_from lbl errs tx (line :: rest)
             = Raise (ValueError ("invalid query instruction " ++ code))).
Proof.
  assert (Hbad : forall text line,
             In line (iter_lines text) -> bad line = true ->
             exists e,
               SqlScript errorcodes_getattr str_upper text = Some (Raise e)
               /\ ConfigurationError e).
  { intros text line Hin Hb. unfold SqlScript, _parse.
    pose proof (parse_loop_total (S (length (iter_lines text)))
                  (iter_lines text) [] (Nat.lt_succ_diag_r _)) as H.
    replace (existsb bad (iter_lines text)) with true in H; [exact H|].
    symmetry. apply existsb_exists. exists line. auto. }
  split; [|split].
  - intros text. unfold SqlScript, _parse.
    pose proof (parse_loop_total (S (length (iter_lines text)))
                  (iter_lines text) [] (Nat.lt_succ_diag_r _)) as H.
    destruct (existsb bad (iter_lines text)); [right | left]; exact H.
  - intros text line inst name Hin Hsep Hic Hga. split.
    + apply (Hbad text line Hin).
      unfold bad_directive. rewrite Hsep, Hic. simpl. rewrite Hga. reflexivity.
    + intros lbl errs tx rest. simpl. rewrite Hsep, Hic. simpl. rewrite Hga.
      eexists. reflexivity.
  - intros text line inst code args Hin Hsep Hic H1 H2 H3.
    apply String.eqb_neq in H1, H2, H3. split.
    + apply (Hbad text line Hin).
      unfold bad_directive. rewrite Hsep, Hic, H1, H2, H3. reflexivity.
    + intros lbl errs tx rest. simpl. rewrite Hsep, Hic, H1, H2, H3.
      reflexivity.
Qed.

(** C5. The script of the two directive lines [--- #step a] and
    [--- #step b] followed by the body line [SELECT 1;] parses to exactly
    one chunk, labelled b, and so does the script in which a blank line
    separates the two directives. In general a header run whose body is
    empty yields no chunk and no error: when more input follows, the
    round reports an empty chunk and the loop goes on with the chunks it
    had; at the end of the input the loop returns the chunks it had. *)
Theorem empty_header_run_is_dropped :
  SqlScript errorcodes_getattr str_upper
    ("--- #step a" ++ nl ++ "--- #step b" ++ nl ++ "SELECT 1;")
  = Some (OK [mkChunk (Some "b") [] (Some "SELECT 1;") true])
  /\ SqlScript errorcodes_getattr str_upper
       ("--- #step a" ++ nl ++ nl ++ "--- #step b" ++ nl ++ "SELECT 1;")
     = Some (OK [mkChunk (Some "b") [] (Some "SELECT 1;") true])
  /\ (forall lines n hdr rest rest',
         read_header lines = OK (hdr, rest) ->
         _read_query rest = (Some [], rest') ->
         parse_chunk lines n = OK (EmptyChunk, rest')
         /\ forall fuel chunks,
             parse_loop (S fuel) lines chunks = parse_loop fuel rest' chunks)
  /\ (forall lines n hdr rest rest',
         read_header lines = OK (hdr, rest) ->
         _read_query rest = (None, rest') ->
         parse_chunk lines n = OK (EndOfFile, rest')
         /\ forall fuel chunks,
             parse_loop (S fuel) lines chunks = Some (OK chunks)).
Proof.
  split; [reflexivity|]. split; [reflexivity|]. split.
  - intros lines n hdr rest rest' Hh Hq.
    assert (E : forall m, parse_chunk lines m = OK (EmptyChunk, rest')).
    { intros m. unfold _parse_chunk. rewrite Hh, Hq. reflexivity. }
    split; [apply E|]. intros fuel chunks. simpl. rewrite E. reflexivity.
  - intros lines n hdr rest rest' Hh Hq.
    assert (E : forall m, parse_chunk lines m = OK (EndOfFile, rest')).
    { intros m. unfold _parse_chunk. rewrite Hh, Hq. reflexivity. }
    split; [apply E|]. intros fuel chunks. simpl. rewrite E. reflexivity.
Qed.

(** C10. In the header phase a line that matches the separator pattern
    and whose instruction text does not start with [#] and a word
    character is eaten and ignored: the header loop goes on from the
    same label, allowed errors and transaction flag, and raises nothing
    for it. Such a line is in no body, for the body of a chunk is made
    of lines that do not match the separator pattern. The bare [---]
    line and the line [--- some comment] are two such lines. *)
Theorem unmatched_directive_is_ignored :
  (forall line inst lbl errs tx rest,
      _sep_re line = Some inst ->
      starts_with_code inst = false ->
      read_header_from lbl errs tx (line :: rest)
      = read_header_from lbl errs tx rest)
  /\ (forall lines n c rest,
         parse_chunk lines n = OK (GotChunk c, rest) ->
         exists q,
           src c = Some (concat_sep nl q)
           /\ Forall (fun l => _sep_re l = None) q)
  /\ (_sep_re ("---" ++ nl) = Some "" /\ starts_with_code "" = false)
  /\ (_sep_re ("--- some comment" ++ nl) = Some "some comment"
      /\ starts_with_code "some comment" = false).
Proof.
  split; [|split; [|split; split; reflexivity]].
  - intros line inst lbl errs tx rest Hsep Hcode.
    apply icode_none_iff in Hcode. simpl. rewrite Hsep, Hcode. reflexivity.
  - intros lines n c rest. unfold _parse_chunk.
    destruct (read_header lines) as [[hdr rest1]|e]; [|discriminate].
    destruct (_read_query rest1) as [[q|] rest2] eqn:Hq; [|discriminate].
    apply read_query_no_separator in Hq.
    destruct q as [|q0 qs]; [discriminate|].
    intros [= <- _]. exists (q0 :: qs). split; [reflexivity | exact Hq].
Qed.

End ParserProperties.

(** ** The statement classifier *)

(** C6, as stated, fails: the statement [INSERT INTO bar VALUES (1)] has
    the type [INSERT], so its label is that type alone and does not
    mention the target. *)
Lemma insert_label_does_not_mention_target :
  ~ mentions_bar
      (describe_statement
         (insert_into_bar
            [ws; kw Keyword "VALUES"; ws; mkToken None Parenthesis "(1)"]
            "INSERT INTO bar VALUES (1)")).
Proof.
  intros (l & n & Hl & Hn). cbv in Hl. injection Hl as <-. discriminate Hn.
Qed.

(** C6, amended. [CREATE TABLE IF NOT EXISTS foo (...)] is labelled
    [CREATE TABLE foo], [SELECT * FROM t] is labelled [SELECT], and
    [INSERT INTO bar VALUES (...)] is labelled [INSERT], whatever follows
    the name of the table. *)
Theorem classifier_golden_cases :
  forall rest text,
    describe_statement (create_table_foo rest text) = Some "CREATE TABLE foo"
    /\ describe_statement select_from_t = Some "SELECT"
    /\ describe_statement (insert_into_bar rest text) = Some "INSERT".
Proof.
  intros rest text. repeat split; reflexivity.
Qed.

(** ** Running computations *)

Lemma bind_ok {S A B : Type} (m : M S A) (f : A -> M S B) s a s' :
  m s = (OK a, s') -> bind m f s = f a s'.
Proof. intros H. unfold bind. rewrite H. reflexivity. Qed.

Lemma bind_raise {S A B : Type} (m : M S A) (f : A -> M S B) s e s' :
  m s = (Raise e, s') -> bind m f s = (Raise e, s').
Proof. intros H. unfold bind. rewrite H. reflexivity. Qed.

(** ** The executor *)

Section ExecutorProperties.

Variable DB : Type.
Variable run_sql : string -> DB -> (DB * Z) + string.
Variable sqlparse_parse : string -> list Statement.
Variable errorcodes_lookup : string -> option string.

Abbreviation World' := (Run DB).
Abbreviation run_stmts := (run_statements DB run_sql).
Abbreviation run_step := (_run_step DB run_sql sqlparse_parse errorcodes_lookup).
Abbreviation exec := (execute DB run_sql sqlparse_parse errorcodes_lookup).
Abbreviation stmts_of := (statements sqlparse_parse).

(** Writing to the transcript leaves the connection as it is. *)
Lemma print_fields transcript line (w : World') :
  exists w',
    print transcript line w = (OK tt, w')
    /\ committed w' = committed w /\ status w' = status w
    /\ autocommit w' = autocommit w /\ sent w' = sent w.
Proof.
  unfold print. destruct transcript; eexists; split; try reflexivity; auto.
Qed.

(** A statement that succeeds inside a transaction. *)
Lemma cursor_execute_tx_ok (w : World') q d' n :
  autocommit w = false ->
  status w <> InError ->
  run_sql q (visible w) = inl (d', n) ->
  exists w',
    cursor_execute run_sql q w = (OK n, w')
    /\ committed w' = committed w /\ status w' = InTransaction d'
    /\ autocommit w' = false /\ sent w' = sent w ++ [q].
Proof.
  intros Hac Hst Hrun. unfold cursor_execute, visible in *. simpl.
  destruct (status w) as [|d|]; [| |congruence]; rewrite Hrun.
  - rewrite Hac. eexists; split; [reflexivity|]. simpl. auto.
  - eexists; split; [reflexivity|]. simpl. auto.
Qed.

(** A statement that fails inside a transaction. *)
Lemma cursor_execute_tx_fail (w : World') q code :
  autocommit w = false ->
  status w <> InError ->
  run_sql q (visible w) = inr code ->
  exists w',
    cursor_execute run_sql q w = (Raise (PgError (Some code)), w')
    /\ committed w' = committed w /\ status w' = InError
    /\ autocommit w' = false /\ sent w' = sent w ++ [q].
Proof.
  intros Hac Hst Hrun. unfold cursor_execute, visible in *. simpl.
  destruct (status w) as [|d|]; [| |congruence]; rewrite Hrun.
  - rewrite Hac. eexists; split; [reflexivity|]. simpl. auto.
  - eexists; split; [reflexivity|]. simpl. auto.
Qed.

(** The statement loop inside a transaction, up to the first statement
    that fails: the statements before it ran, it was sent, and the
    transaction is in error. *)
Lemma run_statements_tx_fail transcript ok :
  forall bad more (w : World') d' code,
    autocommit w = false ->
    status w <> InError ->
    run_ok run_sql (map str ok) (visible w) = Some d' ->
    run_sql (str bad) d' = inr code ->
    exists w',
      run_stmts transcript (ok ++ bad :: more) w
      = (Raise (PgError (Some code)), w')
      /\ committed w' = committed w /\ status w' = InError
      /\ autocommit w' = false
      /\ sent w' = sent w ++ map str ok ++ [str bad].
Proof.
  induction ok as [|s ok IH]; intros bad more w d' code Hac Hst Hok Hbad.
  - simpl in *. injection Hok as <-.
    destruct (print_fields transcript (STMT (describe_statement bad)) w)
      as (w1 & E1 & Hc1 & Hs1 & Ha1 & Hn1).
    rewrite (bind_ok _ _ _ _ _ E1).
    destruct (cursor_execute_tx_fail w1 (str bad) code) as (w2 & E2 & Hc2 & Hs2 & Ha2 & Hn2);
      try congruence.
    { unfold visible in *. rewrite Hs1, Hc1. exact Hbad. }
    rewrite (bind_raise _ _ _ _ _ E2).
    exists w2. repeat split; congruence.
  - simpl in Hok. destruct (run_sql (str s) (visible w)) as [[d1 n]|c] eqn:Hs;
      [|discriminate].
    cbn [app run_statements].
    destruct (print_fields transcript (STMT (describe_statement s)) w)
      as (w1 & E1 & Hc1 & Hs1 & Ha1 & Hn1).
    rewrite (bind_ok _ _ _ _ _ E1).
    destruct (cursor_execute_tx_ok w1 (str s) d1 n) as (w2 & E2 & Hc2 & Hs2 & Ha2 & Hn2);
      try congruence.
    { unfold visible in *. rewrite Hs1, Hc1. exact Hs. }
    rewrite (bind_ok _ _ _ _ _ E2).
    destruct (print_fields transcript ELAPSED w2)
      as (w3 & E3 & Hc3 & Hs3 & Ha3 & Hn3).
    rewrite (bind_ok _ _ _ _ _ E3).
    assert (exists w4,
               (if (0 <=? n)%Z then print transcript (ROWS n) else ret tt) w3
               = (OK tt, w4)
               /\ committed w4 = committed w3 /\ status w4 = status w3
               /\ autocommit w4 = autocommit w3 /\ sent w4 = sent w3)
      as (w4 & E4 & Hc4 & Hs4 & Ha4 & Hn4).
    { destruct (0 <=? n)%Z; [apply print_fields|].
      exists w3. repeat split; reflexivity. }
    rewrite (bind_ok _ _ _ _ _ E4).
    destruct (IH bad more w4 d' code) as (w5 & E5 & Hc5 & Hs5 & Ha5 & Hn5);
      try congruence.
    { unfold visible. rewrite Hs4, Hs3, Hs2. exact Hok. }
    exists w5. split; [exact E5|]. repeat split; try congruence.
    rewrite Hn5, Hn4, Hn3, Hn2, Hn1. simpl. rewrite <- app_assoc. reflexivity.
Qed.


Lemma pgcode_in_In code allowed :
  pgcode_in (Some code) allowed = true <-> In code allowed.
Proof.
  simpl. rewrite existsb_exists. split.
  - intros (c & Hin & Hc). apply String.eqb_eq in Hc. subst. exact Hin.
  - intros Hin. exists code. split; [exact Hin | apply String.eqb_refl].
Qed.

(** The body of the [try] of [_run_step] for a chunk whose statements
    run inside a transaction up to one that fails. *)
Lemma run_step_tx_outcome step do_commit transcript ok bad more
      (w : World') d' code :
  stmts_of step = OK (ok ++ bad :: more) ->
  autocommit w = false ->
  status w <> InError ->
  run_ok run_sql (map str ok) (visible w) = Some d' ->
  run_sql (str bad) d' = inr code ->
  exists w1,
    committed w1 = committed w /\ status w1 = InError
    /\ autocommit w1 = false /\ sent w1 = sent w ++ map str ok ++ [str bad]
    /\ run_step step do_commit transcript w
       = (if pgcode_in (Some code) (allowed_errors step) then
            _ <- lookup DB errorcodes_lookup (Some code) ;;
            if transcript then
              name <- lookup DB errorcodes_lookup (Some code) ;;
              print transcript (ERROR (Some code) name)
            else ret tt
          else
            _ <- lookup DB errorcodes_lookup (Some code) ;;
            raise (PgError (Some code))) w1.
Proof.
  intros Hstmts Hac Hst Hok Hbad.
  destruct (run_statements_tx_fail transcript ok bad more w d' code Hac Hst Hok Hbad)
    as (w1 & E1 & Hc1 & Hs1 & Ha1 & Hn1).
  exists w1. repeat split; try assumption.
  unfold _run_step, try_except. rewrite Hstmts.
  rewrite (bind_raise _ _ _ _ _ E1). reflexivity.
Qed.

(** The positive part of C3: when the code of the error is not allowed
    and the table of error codes knows it, [execute] raises the error
    again, the transaction of the chunk is rolled back and no statement
    of a later chunk is sent. *)
Lemma fatal_error_aborts_script step later transcript ok bad more
      (w : World') d' code name :
  use_transaction step = true ->
  stmts_of step = OK (ok ++ bad :: more) ->
  autocommit w = false ->
  status w <> InError ->
  run_ok run_sql (map str ok) (visible w) = Some d' ->
  run_sql (str bad) d' = inr code ->
  ~ In code (allowed_errors step) ->
  errorcodes_lookup code = Some name ->
  exists w',
    exec (step :: later) transcript w = (Raise (PgError (Some code)), w')
    /\ committed w' = committed w /\ status w' = Idle
    /\ sent w' = sent w ++ map str ok ++ [str bad].
Proof.
  intros Htx Hstmts Hac Hst Hok Hbad Hnot Hname.
  cbn [execute]. rewrite Htx.
  destruct (print_fields transcript (CHUNK (label step)) w)
    as (w0 & E0 & Hc0 & Hs0 & Ha0 & Hn0).
  rewrite (bind_ok _ _ _ _ _ E0).
  destruct (run_step_tx_outcome step true transcript ok bad more w0 d' code)
    as (w1 & Hc1 & Hs1 & Ha1 & Hn1 & E1); try congruence.
  { unfold visible in *. rewrite Hs0, Hc0. exact Hok. }
  destruct (pgcode_in (Some code) (allowed_errors step)) eqn:Hin.
  { apply pgcode_in_In in Hin. contradiction. }
  unfold lookup in E1. rewrite Hname in E1.
  unfold bind at 1. unfold with_connection, with_cursor. rewrite E1.
  cbn. eexists. split; [reflexivity|]. cbn. repeat split; congruence.
Qed.

(** The defect behind C3: when the table of error codes does not know
    the code of an error that is not allowed, the handler raises
    [KeyError] while it looks the code up for its log message, and
    [execute] raises that instead of the database error. *)
Lemma unknown_code_raises_KeyError step later transcript ok bad more
      (w : World') d' code :
  use_transaction step = true ->
  stmts_of step = OK (ok ++ bad :: more) ->
  autocommit w = false ->
  status w <> InError ->
  run_ok run_sql (map str ok) (visible w) = Some d' ->
  run_sql (str bad) d' = inr code ->
  ~ In code (allowed_errors step) ->
  errorcodes_lookup code = None ->
  exists w',
    exec (step :: later) transcript w = (Raise (KeyError (Some code)), w')
    /\ committed w' = committed w /\ status w' = Idle
    /\ sent w' = sent w ++ map str ok ++ [str bad].
Proof.
  intros Htx Hstmts Hac Hst Hok Hbad Hnot Hname.
  cbn [execute]. rewrite Htx.
  destruct (print_fields transcript (CHUNK (label step)) w)
    as (w0 & E0 & Hc0 & Hs0 & Ha0 & Hn0).
  rewrite (bind_ok _ _ _ _ _ E0).
  destruct (run_step_tx_outcome step true transcript ok bad more w0 d' code)
    as (w1 & Hc1 & Hs1 & Ha1 & Hn1 & E1); try congruence.
  { unfold visible in *. rewrite Hs0, Hc0. exact Hok. }
  destruct (pgcode_in (Some code) (allowed_errors step)) eqn:Hin.
  { apply pgcode_in_In in Hin. contradiction. }
  unfold lookup in E1. rewrite Hname in E1.
  unfold bind at 1. unfold with_connection, with_cursor. rewrite E1.
  cbn. eexists. split; [reflexivity|]. cbn. repeat split; congruence.
Qed.

(** C2. A chunk that runs in a transaction and whose statement raises a
    database error with an allowed code: whatever the statements before
    it did is rolled back (the committed database is the one from before
    the chunk and no transaction stays open), the error does not leave
    [execute], and the run goes on with the next chunk. The connection
    is as psycopg2 opens it, with autocommit off, and not in a failed
    transaction; the allowed codes of the chunk are codes of the table
    of error codes, from which the parser takes them. *)
Theorem allowed_error_rolls_back_and_continues :
  forall step later transcript ok bad more (w : World') d' code,
    use_transaction step = true ->
    stmts_of step = OK (ok ++ bad :: more) ->
    autocommit w = false ->
    status w <> InError ->
    run_ok run_sql (map str ok) (visible w) = Some d' ->
    run_sql (str bad) d' = inr code ->
    In code (allowed_errors step) ->
    (forall c, In c (allowed_errors step) -> errorcodes_lookup c <> None) ->
    exists w',
      exec (step :: later) transcript w = exec later transcript w'
      /\ committed w' = committed w /\ status w' = Idle
      /\ autocommit w' = false
      /\ sent w' = sent w ++ map str ok ++ [str bad].
Proof.
  intros step later transcript ok bad more w d' code
         Htx Hstmts Hac Hst Hok Hbad Hin Hknown.
  cbn [execute]. rewrite Htx.
  destruct (print_fields transcript (CHUNK (label step)) w)
    as (w0 & E0 & Hc0 & Hs0 & Ha0 & Hn0).
  rewrite (bind_ok _ _ _ _ _ E0).
  destruct (run_step_tx_outcome step true transcript ok bad more w0 d' code)
    as (w1 & Hc1 & Hs1 & Ha1 & Hn1 & E1); try congruence.
  { unfold visible in *. rewrite Hs0, Hc0. exact Hok. }
  pose proof (Hknown code Hin) as Hname.
  apply pgcode_in_In in Hin. rewrite Hin in E1.
  destruct (errorcodes_lookup code) as [name|] eqn:Hl; [|congruence].
  assert (exists w2,
             run_step step true transcript w0 = (OK tt, w2)
             /\ committed w2 = committed w1 /\ status w2 = status w1
             /\ autocommit w2 = autocommit w1 /\ sent w2 = sent w1)
    as (w2 & E2 & Hc2 & Hs2 & Ha2 & Hn2).
  { rewrite E1. unfold lookup. rewrite Hl. unfold bind at 1, ret at 1.
    destruct transcript.
    - unfold bind at 1, ret at 1. apply print_fields.
    - exists w1. repeat split; reflexivity. }
  unfold bind at 1. unfold with_connection, with_cursor. rewrite E2.
  unfold bind at 1, commit at 1. rewrite Hs2, Hs1. cbn.
  eexists. split; [reflexivity|]. cbn. repeat split; congruence.
Qed.

End ExecutorProperties.

(** ** [describe] *)

Section DescribeProperties.

Variable sqlparse_parse : string -> list Statement.

Lemma describe_statements_log stmts :
  forall log,
    describe_statements stmts log
    = (OK tt, log ++ map (fun s => LogStatement (describe_statement s)) stmts).
Proof.
  induction stmts as [|s stmts IH]; intros log; simpl.
  - unfold ret. rewrite app_nil_r. reflexivity.
  - unfold bind, log_info. rewrite IH, <- app_assoc. reflexivity.
Qed.

Lemma describe_loop_log chunks :
  Forall (fun c => src c <> None) chunks ->
  forall log,
    describe_loop sqlparse_parse chunks log
    = (OK tt, log ++ describe_log sqlparse_parse chunks).
Proof.
  induction 1 as [|step later Hsrc Hlater IH]; intros log; simpl.
  - unfold ret. rewrite app_nil_r. reflexivity.
  - unfold bind at 1. unfold log_info at 1. unfold statements.
    destruct (src step) as [text|]; [|congruence].
    unfold bind at 1. rewrite describe_statements_log, IH.
    rewrite <- !app_assoc. reflexivity.
Qed.

Lemma pairs_of_log_statements cur stmts rest :
  pairs_of_log cur
    (map (fun s => LogStatement (describe_statement s)) stmts ++ rest)
  = map (fun s => (cur, describe_statement s)) stmts ++ pairs_of_log cur rest.
Proof.
  induction stmts as [|s stmts IH]; simpl; [reflexivity|].
  rewrite IH. reflexivity.
Qed.

Lemma pairs_of_describe_log chunks :
  forall cur,
    pairs_of_log cur (describe_log sqlparse_parse chunks)
    = describe_pairs_spec sqlparse_parse chunks.
Proof.
  induction chunks as [|step later IH]; intros cur; simpl; [reflexivity|].
  destruct (statements sqlparse_parse step) as [stmts|e].
  - rewrite pairs_of_log_statements, IH. reflexivity.
  - simpl. apply IH.
Qed.

(** C7, amended. [describe] has no connection and sends nothing to a
    database. It returns [None], not a sequence: what it produces goes
    to the log, at once, as one record for every chunk followed by one
    record for every statement of the chunk that is not empty, in the
    order of the chunks and of the source; read with the chunk records,
    the statement records are the pairs of chunk label and statement
    label. *)
Theorem describe_logs_labels_and_returns_None :
  forall errorcodes_getattr str_upper text chunks log,
    SqlScript errorcodes_getattr str_upper text = Some (OK chunks) ->
    describe sqlparse_parse chunks log
    = (OK PyNone, log ++ describe_log sqlparse_parse chunks)
    /\ forall cur,
        pairs_of_log cur (describe_log sqlparse_parse chunks)
        = describe_pairs_spec sqlparse_parse chunks.
Proof.
  intros errorcodes_getattr str_upper text chunks log Hparse.
  split; [|apply pairs_of_describe_log].
  apply parse_loop_src in Hparse; [|constructor].
  unfold describe, bind. rewrite (describe_loop_log chunks Hparse).
  reflexivity.
Qed.

End DescribeProperties.

(** C7, as stated, fails: for a script of one chunk with one statement
    [describe] returns [None] and not the sequence of the one pair. *)
Lemma describe_returns_no_sequence :
  fst (describe parse_by_line [select_chunk] [])
  <> OK (PyPairs (describe_pairs_spec parse_by_line [select_chunk])).
Proof. vm_compute. discriminate. Qed.

(** ** The ledger *)

Lemma block_size_pos : block_size <> 0.
Proof.
  unfold block_size. intros H. apply (f_equal N.of_nat) in H.
  rewrite N2Nat.id in H. discriminate H.
Qed.

Lemma firstn_nil_inv {A : Type} n (l : list A) :
  n <> 0 -> firstn n l = [] -> l = [].
Proof.
  destruct n; [congruence|]. destruct l; [reflexivity | discriminate].
Qed.

(** The reading loop ends and feeds the hash object the whole file. *)
Lemma read_blocks_whole_file fuel :
  forall f h,
    length f < fuel ->
    read_blocks fuel h (firstn block_size f) (skipn block_size f)
    = Some (h ++ f).
Proof.
  induction fuel as [|fuel IH]; intros f h Hlen; [lia|].
  cbn [read_blocks].
  destruct (firstn block_size f) as [|b data] eqn:Hdata.
  - apply firstn_nil_inv in Hdata; [|exact block_size_pos].
    subst f. rewrite app_nil_r. reflexivity.
  - rewrite IH.
    + rewrite <- app_assoc, <- Hdata, firstn_skipn. reflexivity.
    + rewrite length_skipn.
      pose proof block_size_pos as Hpos.
      remember block_size as bs eqn:Hbs. clear Hbs IH.
      destruct f as [|x f]; [destruct bs; discriminate Hdata|].
      cbn [length] in *. lia.
Qed.

Lemma file_hash_md5 md5_hexdigest content :
  file_hash md5_hexdigest content = Some (md5_hexdigest content).
Proof.
  unfold file_hash.
  rewrite (read_blocks_whole_file _ content [] (Nat.lt_succ_diag_r _)).
  reflexivity.
Qed.

(** A statement that the server accepts, on a connection that is not in
    a failed transaction: the cursor returns and sees the new state. *)
Lemma cursor_execute_accepts {DB Sql Out : Type}
      (run_sql : Sql -> DB -> (DB * Z) + string)
      (w : World DB Sql Out) q d' n :
  status w <> InError ->
  run_sql q (visible w) = inl (d', n) ->
  exists w',
    cursor_execute run_sql q w = (OK n, w')
    /\ visible w' = d' /\ status w' <> InError.
Proof.
  intros Hst Hrun. unfold cursor_execute, visible in *. simpl.
  destruct (status w) as [|d|] eqn:E; [| |congruence]; rewrite Hrun.
  - destruct (autocommit w); eexists; (split; [reflexivity|]);
      unfold visible; simpl; rewrite ?E; split; congruence.
  - eexists; split; [reflexivity|]. unfold visible; simpl. split; congruence.
Qed.

Lemma filter_negb_nil {A : Type} (p : A -> bool) l :
  filter p (filter (fun x => negb (p x)) l) = [].
Proof.
  induction l as [|x l IH]; simpl; [reflexivity|].
  destruct (p x) eqn:E; simpl; [exact IH|]. rewrite E. exact IH.
Qed.

(** [start_stage] on a cursor returns, and the ledger it leaves has the
    stage and no file of it. *)
Lemma start_stage_cursor now stage (w : LedgerWorld) :
  status w <> InError ->
  exists w',
    start_stage ACursor now stage w = (OK tt, w')
    /\ status w' <> InError
    /\ stage_file_rows (visible w') stage = []
    /\ has_stage (visible w') stage = true
    /\ source_file (visible w') = source_file (visible w).
Proof.
  intros Hst. unfold start_stage, start_stage_statements, handle_execute.
  cbn [hasattr_cursor]. unfold bind at 1, ret at 1.
  destruct (cursor_execute_accepts run_ledger_sql w (now, InsertStageStatus stage)
              _ _ Hst eq_refl) as (w1 & E1 & Hv1 & Hs1).
  rewrite (bind_ok _ _ _ _ _ E1).
  destruct (cursor_execute_accepts run_ledger_sql w1 (now, DeleteStageFile stage)
              _ _ Hs1 eq_refl) as (w2 & E2 & Hv2 & Hs2).
  rewrite (bind_ok _ _ _ _ _ E2).
  exists w2. split; [reflexivity|]. split; [exact Hs2|].
  rewrite Hv2, Hv1. unfold stage_file_rows, has_stage. cbn.
  split; [apply (filter_negb_nil (fun p => String.eqb (fst p) stage))|].
  split; [|reflexivity].
  destruct (existsb (fun r => String.eqb (stage_name r) stage)
                    (stage_status (visible w))) eqn:E.
  - clear -E. induction (stage_status (visible w)) as [|r rows IH];
      [discriminate|].
    simpl in *. destruct (String.eqb (stage_name r) stage) eqn:Er.
    + simpl. rewrite String.eqb_refl. reflexivity.
    + rewrite Er. simpl in *. apply IH, E.
  - rewrite existsb_app. simpl. rewrite String.eqb_refl.
    apply orb_true_iff. right. reflexivity.
Qed.

Section SourceFileRows.

Variables (fn hash : string) (now : Z).

Let updated (r : FileRow) : FileRow :=
  if String.eqb (filename r) fn then mkFileRow fn now hash else r.

Lemma updated_filename rows :
  map filename (map updated rows) = map filename rows.
Proof.
  induction rows as [|r rows IH]; simpl; [reflexivity|].
  rewrite IH. unfold updated.
  destruct (String.eqb_spec (filename r) fn) as [->|]; reflexivity.
Qed.

Lemma absent_file_rows rows :
  existsb (fun r => String.eqb (filename r) fn) rows = false ->
  filter (fun r => String.eqb (filename r) fn) rows = []
  /\ ~ In fn (map filename rows).
Proof.
  induction rows as [|r rows IH]; simpl; [auto|].
  destruct (String.eqb_spec (filename r) fn) as [->|Hne]; simpl;
    [discriminate|].
  intros H. destruct (IH H) as [Hf Hn]. split; [exact Hf|]. tauto.
Qed.

Lemma updated_rows_absent rows :
  ~ In fn (map filename rows) ->
  filter (fun r => String.eqb (filename r) fn) (map updated rows) = [].
Proof.
  induction rows as [|r rows IH]; simpl; [reflexivity|].
  intros Hn.
  destruct (String.eqb_spec (filename r) fn) as [E|Hne]; [tauto|].
  apply String.eqb_neq in Hne.
  assert (Hu : updated r = r) by (unfold updated; rewrite Hne; reflexivity).
  rewrite Hu, Hne. apply IH. tauto.
Qed.

Lemma updated_rows_present rows :
  NoDup (map filename rows) ->
  existsb (fun r => String.eqb (filename r) fn) rows = true ->
  filter (fun r => String.eqb (filename r) fn) (map updated rows)
  = [mkFileRow fn now hash].
Proof.
  induction rows as [|r rows IH]; simpl; [discriminate|].
  intros Hnd. inversion Hnd as [|k ks Hk Hks]; subst.
  destruct (String.eqb (filename r) fn) eqn:E; simpl.
  - intros _.
    assert (Hu : updated r = mkFileRow fn now hash)
      by (unfold updated; rewrite E; reflexivity).
    rewrite Hu. simpl. rewrite String.eqb_refl.
    apply String.eqb_eq in E.
    rewrite updated_rows_absent; [reflexivity | rewrite <- E; exact Hk].
  - intros Hex.
    assert (Hu : updated r = r) by (unfold updated; rewrite E; reflexivity).
    rewrite Hu, E. apply IH; assumption.
Qed.

(** The upsert of [source_file]: the server accepts it, and under the
    primary key the table then has exactly one row for the file name,
    with the new time and checksum. *)
Lemma insert_source_file l :
  exists l',
    run_ledger_sql (now, InsertSourceFile fn hash) l = inl (l', 1%Z)
    /\ stage_status l' = stage_status l
    /\ stage_file l' = stage_file l
    /\ has_file l' fn = true
    /\ (source_file_key l ->
        source_file_key l'
        /\ source_file_rows l' fn = [mkFileRow fn now hash]).
Proof.
  eexists. split; [reflexivity|]. cbn [stage_status stage_file].
  split; [reflexivity|]. split; [reflexivity|].
  unfold has_file, source_file_key, source_file_rows. cbn [source_file fst snd].
  fold updated.
  destruct (existsb (fun r => String.eqb (filename r) fn) (source_file l)) eqn:E.
  - split.
    + clear -E. induction (source_file l) as [|r rows IH]; [discriminate|].
      simpl in *. unfold updated at 1.
      destruct (String.eqb (filename r) fn) eqn:Er; simpl.
      * rewrite String.eqb_refl. reflexivity.
      * rewrite Er. simpl. apply IH, E.
    + intros Hk. rewrite updated_filename. split; [exact Hk|].
      apply updated_rows_present; assumption.
  - destruct (absent_file_rows _ E) as [Hf Hn]. split.
    + rewrite existsb_app. simpl. rewrite String.eqb_refl.
      apply orb_true_iff. right. reflexivity.
    + intros Hk. rewrite map_app, filter_app, Hf. simpl.
      rewrite String.eqb_refl. split; [|reflexivity].
      apply NoDup_app; [exact Hk | repeat constructor; simpl; tauto |].
      intros x Hx [<-|[]]. contradiction.
Qed.

End SourceFileRows.

Section LedgerProperties.

Variable md5_hexdigest : list Byte.byte -> string.
Variable as_posix : string -> string.

Abbreviation register_file := (save_file md5_hexdigest as_posix).

(** [save_file] without a stage returns, and under the primary key of
    [source_file] leaves exactly one row for the path. *)
Lemma save_file_no_stage fs now path content (w : LedgerWorld) :
  fs path = Some content ->
  status w <> InError ->
  exists run w',
    register_file fs now path None = Some run
    /\ run w = (OK tt, w')
    /\ status w' <> InError
    /\ (source_file_key (visible w) ->
        source_file_key (visible w')
        /\ source_file_rows (visible w') (as_posix path)
           = [mkFileRow (as_posix path) now (md5_hexdigest content)]).
Proof.
  intros Hfs Hst. unfold save_file. rewrite Hfs, file_hash_md5.
  eexists. 
  destruct (insert_source_file (as_posix path) (md5_hexdigest content) now
              (visible w)) as (l' & Hrun & _ & _ & _ & Hkey).
  destruct (cursor_execute_accepts run_ledger_sql w _ _ _ Hst Hrun)
    as (w1 & E1 & Hv1 & Hs1).
  exists w1. split; [reflexivity|]. split.
  - unfold handle_execute. rewrite (bind_ok _ _ _ _ _ E1). reflexivity.
  - split; [exact Hs1|]. rewrite Hv1. exact Hkey.
Qed.

(** [save_file] under a stage that was just started returns and leaves
    one row of [stage_file] for the stage. *)
Lemma save_file_under_stage fs now path c stage content (w : LedgerWorld) :
  fs path = Some content ->
  status w <> InError ->
  has_stage (visible w) (String c stage) = true ->
  stage_file_rows (visible w) (String c stage) = [] ->
  exists run w',
    register_file fs now path (Some (String c stage)) = Some run
    /\ run w = (OK tt, w')
    /\ status w' <> InError
    /\ stage_file_rows (visible w') (String c stage)
       = [(String c stage, as_posix path)].
Proof.
  intros Hfs Hst Hstage Hrows. unfold save_file. rewrite Hfs, file_hash_md5.
  eexists.
  destruct (insert_source_file (as_posix path) (md5_hexdigest content) now
              (visible w)) as (l1 & Hrun1 & Hss & Hsf & Hfile & _).
  destruct (cursor_execute_accepts run_ledger_sql w _ _ _ Hst Hrun1)
    as (w1 & E1 & Hv1 & Hs1).
  assert (Hno : has_stage_file l1 (String c stage) (as_posix path) = false).
  { unfold has_stage_file. rewrite Hsf. unfold stage_file_rows in Hrows.
    clear -Hrows. induction (stage_file (visible w)) as [|p rows IH];
      [reflexivity|].
    simpl in *. destruct (String.eqb (fst p) (String c stage));
      [discriminate | simpl; apply IH, Hrows]. }
  assert (Hrun2 : run_ledger_sql
                    (now, InsertStageFile (String c stage) (as_posix path)) l1
                  = inl (mkLedger (stage_status l1) (source_file l1)
                           (stage_file l1 ++ [(String c stage, as_posix path)]),
                         1%Z)).
  { unfold run_ledger_sql. cbn [fst snd].
    unfold has_stage in *. rewrite Hss, Hstage, Hfile, Hno. reflexivity. }
  rewrite <- Hv1 in Hrun2.
  destruct (cursor_execute_accepts run_ledger_sql w1 _ _ _ Hs1 Hrun2)
    as (w2 & E2 & Hv2 & Hs2).
  exists w2. split; [reflexivity|]. split.
  - unfold handle_execute. rewrite (bind_ok _ _ _ _ _ E1).
    rewrite (bind_ok _ _ _ _ _ E2). reflexivity.
  - split; [exact Hs2|]. rewrite Hv2. unfold stage_file_rows in *.
    cbn [stage_file]. rewrite Hv1, Hsf, filter_app, Hrows.
    cbn [filter fst app]. rewrite String.eqb_refl. reflexivity.
Qed.

(** C8. Once [start_stage] has run on a cursor, the ledger holds no row
    of [stage_file] for the stage, whatever it held before. In
    particular, starting the stage x, registering the file [f.txt] under
    it, which leaves one row, and starting x again leaves no row for
    x. *)
Theorem start_stage_leaves_no_stage_file :
  (forall now stage (w : LedgerWorld),
      status w <> InError ->
      exists w',
        start_stage ACursor now stage w = (OK tt, w')
        /\ stage_file_rows (visible w') stage = [])
  /\ (forall fs content now1 now2 now3 (w : LedgerWorld),
         status w <> InError ->
         fs "f.txt" = Some content ->
         exists register w1 w2 w3,
           register_file fs now2 "f.txt" (Some "x") = Some register
           /\ start_stage ACursor now1 "x" w = (OK tt, w1)
           /\ register w1 = (OK tt, w2)
           /\ stage_file_rows (visible w2) "x" = [("x", as_posix "f.txt")]
           /\ start_stage ACursor now3 "x" w2 = (OK tt, w3)
           /\ stage_file_rows (visible w3) "x" = []).
Proof.
  split.
  - intros now stage w Hst.
    destruct (start_stage_cursor now stage w Hst) as (w' & E & _ & Hrows & _).
    exists w'. auto.
  - intros fs content now1 now2 now3 w Hst Hfs.
    destruct (start_stage_cursor now1 "x" w Hst)
      as (w1 & E1 & Hs1 & Hrows1 & Hstage1 & _).
    destruct (save_file_under_stage fs now2 "f.txt" "x" "" content w1
                Hfs Hs1 Hstage1 Hrows1) as (run & w2 & Hrun & E2 & Hs2 & Hrows2).
    destruct (start_stage_cursor now3 "x" w2 Hs2) as (w3 & E3 & _ & Hrows3 & _).
    exists run, w1, w2, w3. auto 10.
Qed.

(** C9. Registering a path twice, the file having changed or not in
    between, leaves exactly one row of [source_file] for the path, and
    the row holds the checksum and the time of the second call. The
    table satisfies its primary key before the calls. *)
Theorem save_file_twice_leaves_one_row :
  forall fs1 fs2 content1 content2 now1 now2 path (w : LedgerWorld),
    status w <> InError ->
    source_file_key (visible w) ->
    fs1 path = Some content1 ->
    fs2 path = Some content2 ->
    exists first second w1 w2,
      register_file fs1 now1 path None = Some first
      /\ first w = (OK tt, w1)
      /\ register_file fs2 now2 path None = Some second
      /\ second w1 = (OK tt, w2)
      /\ source_file_rows (visible w2) (as_posix path)
         = [mkFileRow (as_posix path) now2 (md5_hexdigest content2)].
Proof.
  intros fs1 fs2 content1 content2 now1 now2 path w Hst Hkey Hfs1 Hfs2.
  destruct (save_file_no_stage fs1 now1 path content1 w Hfs1 Hst)
    as (first & w1 & Hfirst & E1 & Hs1 & Hk1).
  destruct (Hk1 Hkey) as [Hkey1 _].
  destruct (save_file_no_stage fs2 now2 path content2 w1 Hfs2 Hs1)
    as (second & w2 & Hsecond & E2 & Hs2 & Hk2).
  destruct (Hk2 Hkey1) as [_ Hrows].
  exists first, second, w1, w2. auto 10.
Qed.

End LedgerProperties.

(** C1. Given a connection, [start_stage] and [finish_stage] do not
    return: on an idle connection they run their statements on a cursor
    inside a transaction and commit it, and then go on to call
    [execute] on the connection itself, which has no such method, so
    that they raise [AttributeError] after the update is committed. *)
Theorem stage_call_on_connection_raises :
  forall now stage key (l : Ledger) ac log,
    (exists l1 l2 n1 n2 msg,
        run_ledger_sql (now, InsertStageStatus stage) l = inl (l1, n1)
        /\ run_ledger_sql (now, DeleteStageFile stage) l1 = inl (l2, n2)
        /\ start_stage AConnection now stage (mkWorld l Idle ac log [])
           = (Raise (AttributeError msg),
              mkWorld l2 Idle ac
                (log ++ [(now, InsertStageStatus stage);
                         (now, DeleteStageFile stage)]) []))
    /\ (exists l1 n1 msg,
          run_ledger_sql (now, UpdateStageStatus stage key) l = inl (l1, n1)
          /\ finish_stage AConnection now stage key (mkWorld l Idle ac log [])
             = (Raise (AttributeError msg),
                mkWorld l1 Idle ac (log ++ [(now, UpdateStageStatus stage key)])
                        [])).
Proof.
  intros now stage key l ac log. split.
  - do 5 eexists. split; [reflexivity|]. split; [reflexivity|].
    destruct ac;
      cbv -[has_stage map filter app count_rows String.eqb existsb negb];
      rewrite <- app_assoc; reflexivity.
  - do 3 eexists. split; [reflexivity|].
    destruct ac;
      cbv -[has_stage map filter app count_rows String.eqb existsb negb];
      reflexivity.
Qed.

(** ** Examples *)

(** The first example script parses into its two chunks. *)
Lemma tolerant_script_chunks :
  SqlScript pg_getattr ascii_upper tolerant_script
  = Some (OK [tolerant_load; tolerant_next]).
Proof. reflexivity. Qed.

(** C2 on the first example script: the unique violation of the second
    statement of the first chunk is allowed; the table that the first
    statement created is not committed and the run goes on with the
    second chunk. *)
Lemma allowed_error_example :
  exists w',
    execute (list string) journal_run_sql parse_by_line pg_lookup
      [tolerant_load; tolerant_next] true (idle_world [])
    = execute (list string) journal_run_sql parse_by_line pg_lookup
        [tolerant_next] true w'
    /\ committed w' = [] /\ status w' = Idle /\ autocommit w' = false
    /\ sent w' = ["CREATE TABLE t (x int)"; "INSERT INTO t VALUES (1)"].
Proof.
  apply (allowed_error_rolls_back_and_continues
           (list string) journal_run_sql parse_by_line pg_lookup
           tolerant_load [tolerant_next] true
           [line_statement ("CREATE TABLE t (x int)" ++ nl)]
           (line_statement ("INSERT INTO t VALUES (1)" ++ nl)) []
           (idle_world []) ["CREATE TABLE t (x int)"] "23505");
    try reflexivity.
  - discriminate.
  - simpl. auto.
  - intros c [<-|[]]. discriminate.
Defined.

(** C3 at a failing input: the second statement of the first chunk of
    the second example script fails with the SQLSTATE [ZZ001], which is
    not allowed and which the table of error codes does not hold.
    [execute] raises [KeyError] and not the database error; the
    transaction is rolled back and the later chunk is not run. *)
Theorem unknown_sqlstate_escapes_as_KeyError :
  SqlScript pg_getattr ascii_upper failing_script = Some (OK failing_chunks)
  /\ execute (list string) journal_run_sql parse_by_line pg_lookup
       failing_chunks false (idle_world [])
     = (Raise (KeyError (Some "ZZ001")),
        mkWorld [] Idle false ["CREATE TABLE t (x int)"; "SELECT fail()"] []).
Proof. split; reflexivity. Qed.

(** C4 on a script with an [allow] directive whose name is unknown. *)
Lemma unknown_allow_name_example :
  (exists e,
      SqlScript pg_getattr ascii_upper
        ("--- #allow no_such_error" ++ nl ++ "SELECT 1")
      = Some (Raise e)
      /\ ConfigurationError e)
  /\ forall lbl errs tx rest,
      exists msg,
        _read_header_from pg_getattr ascii_upper lbl errs tx
          (("--- #allow no_such_error" ++ nl)%string :: rest)
        = Raise (AttributeError msg).
Proof.
  apply (proj1 (proj2 (parse_returns_chunks_or_configuration_error
                         pg_getattr ascii_upper))
               ("--- #allow no_such_error" ++ nl ++ "SELECT 1")%string
               ("--- #allow no_such_error" ++ nl)%string
               "#allow no_such_error" "no_such_error").
  - simpl. auto.
  - reflexivity.
  - reflexivity.
  - reflexivity.
Defined.

(** C5 on the lines of a script in which a blank line follows the first
    directive: the first round reports an empty chunk. *)
Lemma empty_header_run_example :
  _parse_chunk pg_getattr ascii_upper
    [("--- #step a" ++ nl)%string; nl; ("--- #step b" ++ nl)%string; "SELECT 1;"]
    1
  = OK (EmptyChunk, [("--- #step b" ++ nl)%string; "SELECT 1;"])
  /\ forall fuel chunks,
      _parse_loop pg_getattr ascii_upper (S fuel)
        [("--- #step a" ++ nl)%string; nl; ("--- #step b" ++ nl)%string;
         "SELECT 1;"] chunks
      = _parse_loop pg_getattr ascii_upper fuel
          [("--- #step b" ++ nl)%string; "SELECT 1;"] chunks.
Proof.
  apply (proj1 (proj2 (proj2 (empty_header_run_is_dropped
                                pg_getattr ascii_upper)))
               [("--- #step a" ++ nl)%string; nl; ("--- #step b" ++ nl)%string;
                "SELECT 1;"]
               1 (mkChunk (Some "a") [] None true)
               [nl; ("--- #step b" ++ nl)%string; "SELECT 1;"]).
  - reflexivity.
  - reflexivity.
Defined.

(** C10 on the line [--- some comment]. *)
Lemma unmatched_directive_example :
  _read_header_from pg_getattr ascii_upper (Some "a") ["23505"] false
    [("--- some comment" ++ nl)%string; "SELECT 1;"]
  = _read_header_from pg_getattr ascii_upper (Some "a") ["23505"] false
      ["SELECT 1;"].
Proof.
  apply (proj1 (unmatched_directive_is_ignored pg_getattr ascii_upper)
               ("--- some comment" ++ nl)%string "some comment").
  - reflexivity.
  - reflexivity.
Defined.

(** C7 on the first example script. *)
Lemma describe_example :
  describe parse_by_line [tolerant_load; tolerant_next] []
  = (OK PyNone,
     [] ++ describe_log parse_by_line [tolerant_load; tolerant_next])
  /\ forall cur,
      pairs_of_log cur (describe_log parse_by_line [tolerant_load; tolerant_next])
      = describe_pairs_spec parse_by_line [tolerant_load; tolerant_next].
Proof.
  apply (describe_logs_labels_and_returns_None parse_by_line
           pg_getattr ascii_upper tolerant_script
           [tolerant_load; tolerant_next] []).
  reflexivity.
Defined.

(** C8 on an empty ledger. *)
Lemma start_stage_example :
  exists w',
    start_stage ACursor 10 "x" (idle_world empty_ledger) = (OK tt, w')
    /\ stage_file_rows (visible w') "x" = [].
Proof.
  apply (proj1 (start_stage_leaves_no_stage_file length_digest same_path)
               10%Z "x" (idle_world empty_ledger)).
  discriminate.
Defined.

(** C9 on an empty ledger and a file that grows between the calls. *)
Lemma save_file_twice_example :
  exists first second w1 w2,
    save_file length_digest same_path (one_file [Byte.x00]) 10 "f.txt" None
    = Some first
    /\ first (idle_world empty_ledger) = (OK tt, w1)
    /\ save_file length_digest same_path (one_file [Byte.x01; Byte.x02]) 20
                 "f.txt" None
       = Some second
    /\ second w1 = (OK tt, w2)
    /\ source_file_rows (visible w2) (same_path "f.txt")
       = [mkFileRow (same_path "f.txt") 20
            (length_digest [Byte.x01; Byte.x02])].
Proof.
  apply (save_file_twice_leaves_one_row length_digest same_path
           (one_file [Byte.x00]) (one_file [Byte.x01; Byte.x02])
           [Byte.x00] [Byte.x01; Byte.x02] 10%Z 20%Z "f.txt"
           (idle_world empty_ledger)).
  - discriminate.
  - constructor.
  - reflexivity.
  - reflexivity.
Defined.

(** * Further properties *)

(** ** The parser *)

Section ParserStructure.

Variable errorcodes_getattr : string -> option string.
Variable str_upper : string -> string.

Abbreviation rh_from := (_read_header_from errorcodes_getattr str_upper).
Abbreviation p_chunk := (_parse_chunk errorcodes_getattr str_upper).
Abbreviation p_loop := (_parse_loop errorcodes_getattr str_upper).

(** The header phase, read as a whole: it eats a run of separator lines
    and stops before the first line that is none; the chunk it returns
    has the label of the last [step] directive of the run, the codes of
    its [allow] directives after those it started with, in order, and
    runs in a transaction unless the run has a [notx] directive. *)
Lemma read_header_from_run lines :
  forall lbl errs tx c rest,
    rh_from lbl errs tx lines = OK (c, rest) ->
    exists hdr,
      lines = hdr ++ rest
      /\ forallb is_sep hdr = true
      /\ match rest with [] => True | l :: _ => is_sep l = false end
      /\ c = mkChunk (header_label lbl hdr)
                     (errs ++ header_allowed errorcodes_getattr str_upper hdr)
                     None (tx && negb (header_notx hdr)).
Proof.
  induction lines as [|line more IH]; intros lbl errs tx c rest.
  - simpl. intros [= <- <-]. exists []. simpl.
    rewrite app_nil_r, andb_true_r. auto.
  - cbn [_read_header_from].
    destruct (_sep_re line) as [inst|] eqn:Hsep.
    + assert (Hcons : forall l e t code_args,
                 directive line = code_args ->
                 rh_from l e t more = OK (c, rest) ->
                 (forall hdr,
                     header_label l hdr = header_label lbl (line :: hdr)
                     /\ e ++ header_allowed errorcodes_getattr str_upper hdr
                        = errs ++ header_allowed errorcodes_getattr str_upper
                                    (line :: hdr)
                     /\ t && negb (header_notx hdr)
                        = tx && negb (header_notx (line :: hdr))) ->
                 exists hdr,
                   line :: more = hdr ++ rest
                   /\ forallb is_sep hdr = true
                   /\ match rest with [] => True | l0 :: _ => is_sep l0 = false end
                   /\ c = mkChunk (header_label lbl hdr)
                            (errs ++ header_allowed errorcodes_getattr str_upper hdr)
                            None (tx && negb (header_notx hdr))).
      { intros l e t ca _ Hrun Heq.
        destruct (IH l e t c rest Hrun) as (hdr & -> & Hh & Hr & ->).
        exists (line :: hdr). split; [reflexivity|].
        split; [simpl; unfold is_sep at 1; rewrite Hsep; exact Hh|].
        split; [exact Hr|].
        destruct (Heq hdr) as (-> & -> & ->). reflexivity. }
      assert (Hdir : directive line = _icode_re inst)
        by (unfold directive; rewrite Hsep; reflexivity).
      destruct (_icode_re inst) as [[code args]|] eqn:Hic.
      * destruct (String.eqb code "step") eqn:E1.
        { intros Hrun. apply (Hcons _ _ _ _ Hdir Hrun). intros hdr.
          unfold header_label, header_allowed, header_notx.
          cbn [fold_left flat_map existsb]. rewrite Hdir, E1.
          apply String.eqb_eq in E1. subst code.
          destruct args; cbn [String.eqb Ascii.eqb Bool.eqb app orb];
            auto. }
        destruct (String.eqb code "allow") eqn:E2.
        { destruct args as [a|]; [|discriminate].
          destruct (errorcodes_getattr (str_upper a)) as [err|] eqn:Hga;
            [|discriminate].
          intros Hrun. apply (Hcons _ _ _ _ Hdir Hrun). intros hdr.
          unfold header_label, header_allowed, header_notx.
          cbn [fold_left flat_map existsb]. rewrite Hdir, E1, E2, Hga.
          apply String.eqb_eq in E2. subst code.
          cbn [String.eqb Ascii.eqb Bool.eqb app orb].
          rewrite <- app_assoc. auto. }
        destruct (String.eqb code "notx") eqn:E3; [|discriminate].
        intros Hrun. apply (Hcons _ _ _ _ Hdir Hrun). intros hdr.
        unfold header_label, header_allowed, header_notx.
        cbn [fold_left flat_map existsb]. rewrite Hdir, E1, E2, E3.
        destruct args; cbn [app orb negb]; rewrite ?andb_false_r; auto.
      * intros Hrun. apply (Hcons _ _ _ _ Hdir Hrun). intros hdr.
        unfold header_label, header_allowed, header_notx.
        cbn [fold_left flat_map existsb]. rewrite Hdir.
        cbn [app orb]. auto.
    + intros [= <- <-]. exists []. simpl.
      rewrite app_nil_r, andb_true_r. unfold is_sep. rewrite Hsep. auto.
Qed.


(** One round of [_parse_chunk], read as a whole: the lines are a run of
    separator lines, a run of lines that are no separators, and the
    rest; the round makes a chunk of the two runs when the second, once
    trimmed, is not empty. *)
Lemma parse_chunk_rounds lines n r rest :
  p_chunk lines n = OK (r, rest) ->
  exists hdr body,
    lines = hdr ++ body ++ rest
    /\ forallb is_sep hdr = true
    /\ forallb (fun l => negb (is_sep l)) body = true
    /\ match r with
       | GotChunk c =>
           c = chunk_of errorcodes_getattr str_upper n hdr (trim_blank body)
           /\ trim_blank body <> []
       | EmptyChunk => trim_blank body = [] /\ rest <> []
       | EndOfFile => trim_blank body = [] /\ rest = []
       end.
Proof.
  unfold _parse_chunk, _read_header.
  destruct (rh_from None [] true lines) as [[c rest1]|e] eqn:Hh;
    [|discriminate].
  apply read_header_from_run in Hh. destruct Hh as (hdr & -> & Hhdr & _ & ->).
  unfold _read_query.
  destruct (read_query_lines rest1) as [body rest2] eqn:Hq.
  destruct (read_query_lines_spec _ _ _ Hq) as (-> & Hbody & _).
  fold (trim_blank body).
  destruct (trim_blank body) as [|q qs] eqn:Ht.
  - destruct rest2 as [|l2 r2]; intros [= <- <-]; exists hdr, body;
      rewrite Ht; repeat split; auto; discriminate.
  - intros [= <- <-]. exists hdr, body. rewrite Ht.
    repeat split; auto; discriminate.
Qed.

(** The loop of [_parse] goes through the rounds. *)
Lemma parse_loop_rounds fuel :
  forall lines chunks cs,
    p_loop fuel lines chunks = Some (OK cs) ->
    exists news,
      cs = chunks ++ news
      /\ parse_rounds errorcodes_getattr str_upper (length chunks + 1)
                      lines news.
Proof.
  induction fuel as [|fuel IH]; intros lines chunks cs; [discriminate|].
  simpl.
  destruct (p_chunk lines (length chunks + 1)) as [[r rest]|e] eqn:Hc;
    [|discriminate].
  destruct r.
  - intros H. apply IH in H. destruct H as (news & -> & Hr).
    exists (c :: news). rewrite <- app_assoc. split; [reflexivity|].
    eapply rounds_chunk; [exact Hc|].
    rewrite length_app in Hr. simpl in Hr.
    replace (S (length chunks + 1)) with (length chunks + 1 + 1) by lia.
    exact Hr.
  - intros H. apply IH in H. destruct H as (news & -> & Hr).
    exists news. split; [reflexivity|]. eapply rounds_empty; eassumption.
  - intros [= <-]. exists []. rewrite app_nil_r. split; [reflexivity|].
    eapply rounds_end; eassumption.
Qed.





Lemma filter_drop_blank q :
  filter (fun l => negb (is_blank l)) (drop_blank q)
  = filter (fun l => negb (is_blank l)) q.
Proof.
  induction q as [|l q IH]; simpl; [reflexivity|].
  destruct (is_blank l) eqn:E; simpl; [exact IH|]. rewrite E. reflexivity.
Qed.

Lemma filter_trim_blank q :
  filter (fun l => negb (is_blank l)) (trim_blank q)
  = filter (fun l => negb (is_blank l)) q.
Proof.
  unfold trim_blank, drop_blank_end.
  rewrite filter_rev, filter_drop_blank, <- filter_rev, rev_involutive.
  apply filter_drop_blank.
Qed.

Lemma filter_separators hdr :
  forallb is_sep hdr = true -> filter (fun l => negb (is_sep l)) hdr = [].
Proof.
  induction hdr as [|l hdr IH]; simpl; [reflexivity|].
  destruct (is_sep l); simpl; [exact IH | discriminate].
Qed.

Lemma header_label_no_step hdr :
  forall lbl,
    existsb is_step_directive hdr = false -> header_label lbl hdr = lbl.
Proof.
  unfold header_label.
  induction hdr as [|l hdr IH]; intros lbl; simpl; [reflexivity|].
  intros H. apply orb_false_iff in H as [Hl Hh].
  unfold is_step_directive in Hl.
  destruct (directive l) as [[code args]|]; [rewrite Hl|]; apply IH, Hh.
Qed.


(** Without [step] directives the rounds number their chunks. *)
Lemma parse_rounds_default_labels n lines news :
  parse_rounds errorcodes_getattr str_upper n lines news ->
  existsb is_step_directive lines = false ->
  forall i c,
    nth_error news i = Some c ->
    label c = Some ("Step " ++ str_of_nat (n + i))%string.
Proof.
  induction 1 as [n lines rest Hc | n lines rest news Hc _ IH
                  | n lines rest c news Hc _ IH]; intros Hno i c0.
  - destruct i; discriminate.
  - apply parse_chunk_rounds in Hc.
    destruct Hc as (hdr & body & -> & _).
    rewrite !existsb_app in Hno. apply orb_false_iff in Hno as [_ Hno].
    apply orb_false_iff in Hno as [_ Hno]. apply IH, Hno.
  - apply parse_chunk_rounds in Hc.
    destruct Hc as (hdr & body & -> & _ & _ & -> & _).
    rewrite !existsb_app in Hno. apply orb_false_iff in Hno as [Hh Hno].
    apply orb_false_iff in Hno as [_ Hno].
    destruct i as [|i]; simpl.
    + intros [= <-]. unfold chunk_of. cbn [label].
      rewrite (header_label_no_step _ _ Hh), Nat.add_0_r. reflexivity.
    + intros Hi. rewrite (IH Hno i c0 Hi).
      replace (S n + i) with (n + S i) by lia. reflexivity.
Qed.

(** The bodies of the rounds hold the lines of the script that are
    neither separators nor blank. *)
Lemma parse_rounds_sql_lines n lines news :
  parse_rounds errorcodes_getattr str_upper n lines news ->
  exists bodies,
    map src news = map (fun q => Some (concat_sep nl q)) bodies
    /\ filter (fun l => negb (is_blank l)) (concat bodies) = sql_lines lines.
Proof.
  assert (Hsplit : forall hdr body rest,
             forallb is_sep hdr = true ->
             forallb (fun l => negb (is_sep l)) body = true ->
             sql_lines (hdr ++ body ++ rest)
             = filter (fun l => negb (is_blank l)) (trim_blank body)
               ++ sql_lines rest).
  { intros hdr body rest Hh Hb. unfold sql_lines.
    rewrite !filter_app, (filter_separators _ Hh), (forallb_filter_id _ _ Hb).
    rewrite filter_trim_blank. reflexivity. }
  induction 1 as [n lines rest Hc | n lines rest news Hc _ IH
                  | n lines rest c news Hc _ IH].
  - apply parse_chunk_rounds in Hc.
    destruct Hc as (hdr & body & -> & Hh & Hb & Ht & ->).
    exists []. split; [reflexivity|].
    rewrite (Hsplit _ _ _ Hh Hb), Ht. reflexivity.
  - apply parse_chunk_rounds in Hc.
    destruct Hc as (hdr & body & -> & Hh & Hb & Ht & _).
    destruct IH as (bodies & Hsrc & Hlines).
    exists bodies. split; [exact Hsrc|].
    rewrite (Hsplit _ _ _ Hh Hb), Ht. exact Hlines.
  - apply parse_chunk_rounds in Hc.
    destruct Hc as (hdr & body & -> & Hh & Hb & -> & _).
    destruct IH as (bodies & Hsrc & Hlines).
    exists (trim_blank body :: bodies). split.
    + simpl. rewrite Hsrc. reflexivity.
    + simpl. rewrite filter_app, Hlines, (Hsplit _ _ _ Hh Hb). reflexivity.
Qed.


(** X2. In a script without [step] directive the chunks are labelled
    Step 1, Step 2, ... by their position among the chunks; a header
    run with an empty body, which yields no chunk, takes no number. *)
Theorem default_labels_number_the_chunks :
  forall text chunks i c,
    SqlScript errorcodes_getattr str_upper text = Some (OK chunks) ->
    existsb is_step_directive (iter_lines text) = false ->
    nth_error chunks i = Some c ->
    label c = Some ("Step " ++ str_of_nat (S i))%string.
Proof.
  intros text chunks i c H Hno Hi. apply parse_loop_rounds in H.
  destruct H as (news & -> & Hr). simpl in *.
  exact (parse_rounds_default_labels _ _ _ Hr Hno i c Hi).
Qed.

(** X3. The header phase eats the run of separator lines at the head of
    the input and nothing else. The chunk it returns has the label of
    the last [step] directive of the run (none when that directive has
    no argument), the codes of the [allow] directives of the run in
    their order, and runs outside a transaction exactly when the run
    has a [notx] directive, wherever in the run the directives stand. *)
Theorem header_run_sets_chunk_attributes :
  forall lines c rest,
    _read_header errorcodes_getattr str_upper lines = OK (c, rest) ->
    exists hdr,
      lines = hdr ++ rest
      /\ forallb is_sep hdr = true
      /\ match rest with [] => True | l :: _ => is_sep l = false end
      /\ label c = header_label None hdr
      /\ allowed_errors c = header_allowed errorcodes_getattr str_upper hdr
      /\ use_transaction c = negb (header_notx hdr)
      /\ src c = None.
Proof.
  intros lines c rest H. apply read_header_from_run in H.
  destruct H as (hdr & Hl & Hh & Hr & ->). exists hdr. auto 10.
Qed.

(** X4. No line of SQL is lost or moved: the lines of the bodies of the
    parsed chunks, in the order of the chunks and without the blank
    ones, are the lines of the script that are neither separators nor
    blank, in their order. *)
Theorem no_sql_line_is_lost :
  forall text chunks,
    SqlScript errorcodes_getattr str_upper text = Some (OK chunks) ->
    exists bodies,
      map src chunks = map (fun q => Some (concat_sep nl q)) bodies
      /\ filter (fun l => negb (is_blank l)) (concat bodies)
         = sql_lines (iter_lines text).
Proof.
  intros text chunks H. apply parse_loop_rounds in H.
  destruct H as (news & -> & Hr). simpl.
  exact (parse_rounds_sql_lines _ _ _ Hr).
Qed.

Lemma read_query_lines_no_separator lines :
  forallb (fun l => negb (is_sep l)) lines = true ->
  read_query_lines lines = (lines, []).
Proof.
  induction lines as [|l lines IH]; simpl; [reflexivity|].
  unfold is_sep at 1. destruct (_sep_re l); simpl; [discriminate|].
  intros H. rewrite (IH H). reflexivity.
Qed.

(** X5. A script without separator line is one chunk: it is labelled
    Step 1, allows no error, runs in a transaction, and its body is the
    script without its leading and trailing blank lines. A script of
    blank lines, or of no line, has no chunk. *)
Theorem script_without_directives_is_one_chunk :
  forall lines,
    forallb (fun l => negb (is_sep l)) lines = true ->
    _parse errorcodes_getattr str_upper lines
    = Some (OK match trim_blank lines with
               | [] => []
               | q => [mkChunk (Some "Step 1") [] (Some (concat_sep nl q)) true]
               end).
Proof.
  intros lines Hno.
  assert (Hh : rh_from None [] true lines
               = OK (mkChunk None [] None true, lines)).
  { destruct lines as [|l lines]; [reflexivity|]. simpl in *.
    unfold is_sep in Hno. destruct (_sep_re l); [discriminate | reflexivity]. }
  unfold _parse. cbn [_parse_loop]. unfold _parse_chunk, _read_header.
  rewrite Hh. unfold _read_query.
  rewrite (read_query_lines_no_separator _ Hno). fold (trim_blank lines).
  destruct (trim_blank lines) as [|q qs] eqn:Ht; [reflexivity|].
  destruct lines as [|l lines]; [discriminate Ht|].
  reflexivity.
Qed.

End ParserStructure.


(** The script without labels parses into its two chunks. *)
Lemma unlabelled_script_chunks :
  SqlScript pg_getattr ascii_upper unlabelled_script
  = Some (OK unlabelled_chunks).
Proof. reflexivity. Qed.

(** X2 on the second chunk of the script without labels. *)
Lemma default_label_example :
  label (mkChunk (Some "Step 2") [] (Some "SELECT 2;") false)
  = Some ("Step " ++ str_of_nat 2)%string.
Proof.
  apply (default_labels_number_the_chunks pg_getattr ascii_upper
           unlabelled_script unlabelled_chunks 1).
  - reflexivity.
  - reflexivity.
  - reflexivity.
Defined.

(** X3 on a header of three directives before a body line. *)
Lemma header_run_example :
  exists hdr,
    [("--- #notx" ++ nl)%string; ("--- #allow unique_violation" ++ nl)%string;
     ("--- #step load" ++ nl)%string; "SELECT 1;"]
    = hdr ++ ["SELECT 1;"]
    /\ forallb is_sep hdr = true
    /\ is_sep "SELECT 1;" = false
    /\ label (mkChunk (Some "load") ["23505"] None false)
       = header_label None hdr
    /\ allowed_errors (mkChunk (Some "load") ["23505"] None false)
       = header_allowed pg_getattr ascii_upper hdr
    /\ use_transaction (mkChunk (Some "load") ["23505"] None false)
       = negb (header_notx hdr)
    /\ src (mkChunk (Some "load") ["23505"] None false) = None.
Proof.
  apply (header_run_sets_chunk_attributes pg_getattr ascii_upper
           [("--- #notx" ++ nl)%string;
            ("--- #allow unique_violation" ++ nl)%string;
            ("--- #step load" ++ nl)%string; "SELECT 1;"]
           (mkChunk (Some "load") ["23505"] None false) ["SELECT 1;"]).
  reflexivity.
Defined.

(** X4 on the first example script. *)
Lemma sql_lines_example :
  exists bodies,
    map src [tolerant_load; tolerant_next]
    = map (fun q => Some (concat_sep nl q)) bodies
    /\ filter (fun l => negb (is_blank l)) (concat bodies)
       = sql_lines (iter_lines tolerant_script).
Proof.
  apply (no_sql_line_is_lost pg_getattr ascii_upper tolerant_script).
  reflexivity.
Defined.

(** X5 on a script of two statements between blank lines. *)
Lemma script_without_directives_example :
  _parse pg_getattr ascii_upper
    [nl; ("SELECT 1;" ++ nl)%string; nl; ("SELECT 2;" ++ nl)%string; nl]
  = Some (OK match trim_blank [nl; ("SELECT 1;" ++ nl)%string; nl;
                               ("SELECT 2;" ++ nl)%string; nl] with
             | [] => []
             | q => [mkChunk (Some "Step 1") [] (Some (concat_sep nl q)) true]
             end).
Proof.
  apply (script_without_directives_is_one_chunk pg_getattr ascii_upper).
  reflexivity.
Defined.

(** ** The statement classifier *)

Lemma ddl_parts_skipping after :
  forall parts name rest,
    Forall (fun t => plain_keyword t = true) after ->
    is_identifier_or_function name = true ->
    ddl_parts false true parts (after ++ name :: rest)
    = parts ++ [normalized name].
Proof.
  induction after as [|t after IH]; intros parts name rest Hafter Hname.
  - simpl. rewrite Hname. reflexivity.
  - inversion Hafter as [|t' after' Ht Hafter']; subst.
    unfold plain_keyword in Ht. apply andb_true_iff in Ht as [Hk Hi].
    apply negb_true_iff in Hi. cbn [app ddl_parts].
    rewrite Hi, Hk. cbn [negb andb orb]. apply IH; assumption.
Qed.

Lemma ddl_parts_keywords before :
  forall first parts tail,
    Forall (fun t => plain_keyword t = true) before ->
    Forall (fun t => normalized t <> "IF") before ->
    ddl_parts first false parts (before ++ tail)
    = ddl_parts (first && match before with [] => true | _ => false end)
                false (parts ++ map normalized before) tail.
Proof.
  induction before as [|t before IH]; intros first parts tail Hk Hn.
  - simpl. rewrite app_nil_r, andb_true_r. reflexivity.
  - inversion Hk as [|t1 b1 Ht Hk']; subst.
    inversion Hn as [|t2 b2 Hif Hn']; subst.
    unfold plain_keyword in Ht. apply andb_true_iff in Ht as [Hkw Hi].
    apply negb_true_iff in Hi. apply String.eqb_neq in Hif.
    cbn [app ddl_parts]. rewrite Hi, Hkw, Hif, !andb_false_r.
    cbn [negb andb orb]. rewrite (IH false _ tail Hk' Hn').
    cbn [andb map]. rewrite <- app_assoc. reflexivity.
Qed.

(** X6. Every statement of a chunk has a label: the property
    [statements] leaves out the statements that [is_empty] finds empty,
    and for every other statement [describe_statement] returns a label
    and not [None]. *)
Theorem chunk_statements_have_labels :
  forall sqlparse_parse step stmts,
    statements sqlparse_parse step = OK stmts ->
    Forall (fun s => is_empty s = false
                     /\ exists lbl, describe_statement s = Some lbl) stmts.
Proof.
  intros sqlparse_parse step stmts. unfold statements.
  destruct (src step) as [text|]; [|discriminate]. intros [= <-].
  apply Forall_forall. intros s Hs. apply filter_In in Hs as [_ Hs].
  apply negb_true_iff in Hs. split; [exact Hs|].
  unfold is_empty in Hs. unfold describe_statement.
  destruct (token_next s 0) as [[li lt]|]; [|discriminate].
  destruct (has_ttype lt DDL); [eauto|].
  destruct (String.eqb (get_type s) "UNKNOWN"); [|eauto].
  destruct (get_real_name s) as [[|ch r]|]; eauto.
Qed.

(** X7. The label of a DDL statement whose tokens after the first are
    keywords, the keyword IF, more keywords and then a name: it is the
    type of the statement, the keywords before IF and the name; IF and
    the keywords after it are left out, and so is what follows the
    name. *)
Theorem ddl_label_leaves_out_IF_and_after :
  forall s li lt before if_kw after name rest,
    token_next s 0 = Some (li, lt) ->
    has_ttype lt DDL = true ->
    _tokens s (S li) = before ++ if_kw :: after ++ name :: rest ->
    Forall (fun t => plain_keyword t = true) before ->
    Forall (fun t => normalized t <> "IF") before ->
    plain_keyword if_kw = true ->
    normalized if_kw = "IF" ->
    Forall (fun t => plain_keyword t = true) after ->
    is_identifier_or_function name = true ->
    describe_statement s
    = Some (get_type s ++ " "
              ++ concat_sep " " (map normalized before ++ [normalized name]))%string.
Proof.
  intros s li lt before if_kw after name rest
         Hnext Hddl Htoks Hbefore Hnoif Hif Hifn Hafter Hname.
  unfold describe_statement. rewrite Hnext, Hddl, Htoks.
  rewrite (ddl_parts_keywords before true [] _ Hbefore Hnoif).
  unfold plain_keyword in Hif. apply andb_true_iff in Hif as [Hk Hi].
  apply negb_true_iff in Hi.
  cbn [ddl_parts]. rewrite Hi, Hk, Hifn, !andb_false_r.
  cbn [negb andb orb String.eqb Ascii.eqb Bool.eqb].
  rewrite (ddl_parts_skipping after _ name rest Hafter Hname).
  reflexivity.
Qed.

(** X6 on the first chunk of the first example script. *)
Lemma chunk_statements_example :
  Forall (fun s => is_empty s = false
                   /\ exists lbl, describe_statement s = Some lbl)
         [line_statement ("CREATE TABLE t (x int)" ++ nl);
          line_statement ("INSERT INTO t VALUES (1)" ++ nl)].
Proof.
  apply (chunk_statements_have_labels parse_by_line tolerant_load).
  reflexivity.
Defined.

(** X7 on [CREATE TABLE IF NOT EXISTS foo]. *)
Lemma ddl_label_example :
  describe_statement (create_table_foo [] "CREATE TABLE IF NOT EXISTS foo")
  = Some (get_type (create_table_foo [] "CREATE TABLE IF NOT EXISTS foo")
            ++ " "
            ++ concat_sep " " (map normalized [kw Keyword "TABLE"]
                                 ++ [normalized (ident "foo")]))%string.
Proof.
  apply (ddl_label_leaves_out_IF_and_after
           (create_table_foo [] "CREATE TABLE IF NOT EXISTS foo")
           0 (kw DDL "CREATE") [kw Keyword "TABLE"] (kw Keyword "IF")
           [kw Keyword "NOT"; kw Keyword "EXISTS"] (ident "foo") []).
  - reflexivity.
  - reflexivity.
  - reflexivity.
  - repeat constructor.
  - repeat constructor. discriminate.
  - reflexivity.
  - reflexivity.
  - repeat constructor.
  - reflexivity.
Defined.

(** ** Runs of the executor *)

Lemma run_ok_app {DB : Type} (run_sql : string -> DB -> (DB * Z) + string)
      qs1 :
  forall qs2 d,
    run_ok run_sql (qs1 ++ qs2) d
    = match run_ok run_sql qs1 d with
      | Some d1 => run_ok run_sql qs2 d1
      | None => None
      end.
Proof.
  induction qs1 as [|q qs1 IH]; intros qs2 d; simpl; [reflexivity|].
  destruct (run_sql q d) as [[d1 n]|c]; [apply IH | reflexivity].
Qed.

Section ExecutorRuns.

Variable DB : Type.
Variable run_sql : string -> DB -> (DB * Z) + string.
Variable sqlparse_parse : string -> list Statement.
Variable errorcodes_lookup : string -> option string.

Abbreviation RunWorld := (Run DB).
Abbreviation run_all := (run_statements DB run_sql).
Abbreviation step_run :=
  (_run_step DB run_sql sqlparse_parse errorcodes_lookup).
Abbreviation exec_all :=
  (execute DB run_sql sqlparse_parse errorcodes_lookup).

(** What follows a statement that returned its row count. *)
Lemma after_statement_fields transcript n (w : RunWorld) :
  exists w',
    (print transcript ELAPSED ;;
     if (0 <=? n)%Z then print transcript (ROWS n) else ret tt) w
    = (OK tt, w')
    /\ committed w' = committed w /\ status w' = status w
    /\ autocommit w' = autocommit w /\ sent w' = sent w.
Proof.
  destruct (print_fields _ transcript ELAPSED w)
    as (w1 & E1 & Hc1 & Hs1 & Ha1 & Hn1).
  rewrite (bind_ok _ _ _ _ _ E1).
  destruct (0 <=? n)%Z.
  - destruct (print_fields _ transcript (ROWS n) w1)
      as (w2 & E2 & Hc2 & Hs2 & Ha2 & Hn2).
    exists w2. rewrite E2. repeat split; congruence.
  - exists w1. repeat split; assumption.
Qed.

(** One round of the statement loop. *)
Lemma run_statements_cons transcript sql more (w : RunWorld) :
  run_all transcript (sql :: more) w
  = (print transcript (STMT (describe_statement sql)) ;;
     rows <- cursor_execute run_sql (str sql) ;;
     (print transcript ELAPSED ;;
      if (0 <=? rows)%Z then print transcript (ROWS rows) else ret tt) ;;
     run_all transcript more) w.
Proof.
  cbn [run_statements]. unfold bind.
  destruct (print transcript (STMT (describe_statement sql)) w) as [[u|e] w1];
    [|reflexivity].
  destruct (cursor_execute run_sql (str sql) w1) as [[n|e] w2]; [|reflexivity].
  destruct (print transcript ELAPSED w2) as [[u2|e] w3]; reflexivity.
Qed.

(** The statement loop inside a transaction when every statement
    succeeds. *)
Lemma run_statements_tx_ok transcript stmts :
  forall (w : RunWorld) d',
    autocommit w = false ->
    status w <> InError ->
    run_ok run_sql (map str stmts) (visible w) = Some d' ->
    exists w',
      run_all transcript stmts w = (OK tt, w')
      /\ committed w' = committed w /\ status w' <> InError
      /\ visible w' = d' /\ autocommit w' = false
      /\ sent w' = sent w ++ map str stmts.
Proof.
  induction stmts as [|s stmts IH]; intros w d' Hac Hst Hok.
  - simpl in *. injection Hok as <-. exists w. rewrite app_nil_r.
    repeat split; auto.
  - simpl in Hok.
    destruct (run_sql (str s) (visible w)) as [[d1 n]|c] eqn:Hs;
      [|discriminate].
    rewrite run_statements_cons.
    destruct (print_fields _ transcript (STMT (describe_statement s)) w)
      as (w1 & E1 & Hc1 & Hs1 & Ha1 & Hn1).
    rewrite (bind_ok _ _ _ _ _ E1).
    destruct (cursor_execute_tx_ok _ run_sql w1 (str s) d1 n)
      as (w2 & E2 & Hc2 & Hs2 & Ha2 & Hn2); try congruence.
    { unfold visible in *. rewrite Hs1, Hc1. exact Hs. }
    rewrite (bind_ok _ _ _ _ _ E2).
    destruct (after_statement_fields transcript n w2)
      as (w3 & E3 & Hc3 & Hs3 & Ha3 & Hn3).
    rewrite (bind_ok _ _ _ _ _ E3).
    destruct (IH w3 d') as (w4 & E4 & Hc4 & Hs4 & Hv4 & Ha4 & Hn4);
      try congruence.
    { unfold visible. rewrite Hs3, Hs2. exact Hok. }
    exists w4. split; [exact E4|]. repeat split; try congruence.
    rewrite Hn4, Hn3, Hn2, Hn1. simpl. rewrite <- app_assoc. reflexivity.
Qed.

(** A statement on an idle connection with autocommit on. *)
Lemma cursor_execute_auto (w : RunWorld) q :
  autocommit w = true ->
  status w = Idle ->
  exists w',
    status w' = Idle /\ autocommit w' = true /\ sent w' = sent w ++ [q]
    /\ match run_sql q (committed w) with
       | inl (d', n) =>
           cursor_execute run_sql q w = (OK n, w') /\ committed w' = d'
       | inr code =>
           cursor_execute run_sql q w = (Raise (PgError (Some code)), w')
           /\ committed w' = committed w
       end.
Proof.
  intros Hac Hst. unfold cursor_execute. simpl. rewrite Hst.
  destruct (run_sql q (committed w)) as [[d' n]|code]; rewrite Hac;
    eexists; simpl; repeat split; auto.
Qed.

(** The statement loop with autocommit on: every statement that
    succeeds is committed at once, and the loop stops at the first that
    fails. *)
Lemma run_statements_auto transcript ok :
  forall tail (w : RunWorld) d',
    autocommit w = true ->
    status w = Idle ->
    run_ok run_sql (map str ok) (committed w) = Some d' ->
    exists w',
      committed w' = d' /\ status w' = Idle /\ autocommit w' = true
      /\ match tail with
         | [] =>
             run_all transcript ok w = (OK tt, w')
             /\ sent w' = sent w ++ map str ok
         | bad :: more =>
             forall code,
               run_sql (str bad) d' = inr code ->
               exists w'',
                 run_all transcript (ok ++ bad :: more) w
                 = (Raise (PgError (Some code)), w'')
                 /\ committed w'' = d' /\ status w'' = Idle
                 /\ autocommit w'' = true
                 /\ sent w'' = sent w ++ map str ok ++ [str bad]
         end.
Proof.
  induction ok as [|s ok IH]; intros tail w d' Hac Hst Hok.
  - simpl in Hok. injection Hok as <-. exists w.
    split; [reflexivity|]. split; [exact Hst|]. split; [exact Hac|].
    destruct tail as [|bad more].
    + simpl. rewrite app_nil_r. auto.
    + intros code Hbad. cbn [app]. rewrite run_statements_cons.
      destruct (print_fields _ transcript (STMT (describe_statement bad)) w)
        as (w1 & E1 & Hc1 & Hs1 & Ha1 & Hn1).
      rewrite (bind_ok _ _ _ _ _ E1).
      destruct (cursor_execute_auto w1 (str bad)) as (w2 & Hs2 & Ha2 & Hn2 & H2);
        try congruence.
      rewrite Hc1, Hbad in H2. destruct H2 as [E2 Hc2].
      rewrite (bind_raise _ _ _ _ _ E2).
      exists w2. repeat split; try congruence. rewrite Hn2, Hn1. reflexivity.
  - simpl in Hok.
    destruct (run_sql (str s) (committed w)) as [[d1 n]|c] eqn:Hs;
      [|discriminate].
    destruct (print_fields _ transcript (STMT (describe_statement s)) w)
      as (w1 & E1 & Hc1 & Hs1 & Ha1 & Hn1).
    destruct (cursor_execute_auto w1 (str s)) as (w2 & Hs2 & Ha2 & Hn2 & H2);
      try congruence.
    rewrite Hc1, Hs in H2. destruct H2 as [E2 Hc2].
    destruct (after_statement_fields transcript n w2)
      as (w3 & E3 & Hc3 & Hs3 & Ha3 & Hn3).
    destruct (IH tail w3 d') as (w4 & Hc4 & Hs4 & Ha4 & H4); try congruence.
    assert (Hstep : forall rest,
               run_all transcript (s :: rest) w = run_all transcript rest w3).
    { intros rest. rewrite run_statements_cons.
      rewrite (bind_ok _ _ _ _ _ E1), (bind_ok _ _ _ _ _ E2),
        (bind_ok _ _ _ _ _ E3). reflexivity. }
    exists w4. split; [exact Hc4|]. split; [exact Hs4|]. split; [exact Ha4|].
    destruct tail as [|bad more].
    + destruct H4 as [E4 Hn4]. rewrite Hstep. split; [exact E4|].
      rewrite Hn4, Hn3, Hn2, Hn1. simpl. rewrite <- app_assoc. reflexivity.
    + intros code Hbad. destruct (H4 code Hbad)
        as (w5 & E5 & Hc5 & Hs5 & Ha5 & Hn5).
      exists w5. cbn [app]. rewrite Hstep. split; [exact E5|].
      repeat split; try assumption.
      rewrite Hn5, Hn3, Hn2, Hn1. simpl. rewrite <- app_assoc. reflexivity.
Qed.

(** Committing on a connection that is not in a failed transaction
    makes what the connection saw the committed database. *)
Lemma commit_fields (w : RunWorld) :
  status w <> InError ->
  exists w',
    commit w = (OK tt, w')
    /\ committed w' = visible w /\ status w' = Idle
    /\ autocommit w' = autocommit w /\ sent w' = sent w.
Proof.
  intros Hst. unfold commit, visible.
  destruct (status w); [| |congruence]; eexists; split; try reflexivity;
    simpl; auto.
Qed.

Lemma set_autocommit_idle b (w : RunWorld) :
  status w = Idle ->
  exists w',
    set_autocommit b w = (OK tt, w')
    /\ committed w' = committed w /\ status w' = Idle
    /\ autocommit w' = b /\ sent w' = sent w.
Proof.
  intros Hst. unfold set_autocommit. rewrite Hst.
  eexists. split; [reflexivity|]. simpl. auto.
Qed.

(** A chunk whose statements all succeed, on an idle connection with
    autocommit off: whatever its transaction policy, the run goes on
    with the next chunk, the statements committed. *)
Lemma execute_chunk_ok step later transcript stmts (w : RunWorld) d' :
  statements sqlparse_parse step = OK stmts ->
  autocommit w = false ->
  status w = Idle ->
  run_ok run_sql (map str stmts) (committed w) = Some d' ->
  exists w',
    exec_all (step :: later) transcript w = exec_all later transcript w'
    /\ committed w' = d' /\ status w' = Idle /\ autocommit w' = false
    /\ sent w' = sent w ++ map str stmts.
Proof.
  intros Hstmts Hac Hst Hok. cbn [execute].
  destruct (print_fields _ transcript (CHUNK (label step)) w)
    as (w0 & E0 & Hc0 & Hs0 & Ha0 & Hn0).
  rewrite (bind_ok _ _ _ _ _ E0).
  destruct (use_transaction step).
  - destruct (run_statements_tx_ok transcript stmts w0 d')
      as (w1 & E1 & Hc1 & Hs1 & Hv1 & Ha1 & Hn1); try congruence.
    { unfold visible. rewrite Hs0, Hst, Hc0. exact Hok. }
    destruct (commit_fields w1 Hs1) as (w2 & E2 & Hc2 & Hs2 & Ha2 & Hn2).
    assert (Hrun : step_run step true transcript w0 = (OK tt, w2)).
    { unfold _run_step, try_except. rewrite Hstmts.
      rewrite (bind_ok _ _ _ _ _ E1). rewrite E2. reflexivity. }
    destruct (commit_fields w2) as (w3 & E3 & Hc3 & Hs3 & Ha3 & Hn3);
      [congruence|].
    unfold bind at 1. unfold with_connection, with_cursor. rewrite Hrun.
    unfold bind at 1. rewrite E3. unfold ret at 1.
    exists w3. split; [reflexivity|]. unfold visible in Hc3.
    rewrite Hs2 in Hc3. repeat split; congruence.
  - destruct (set_autocommit_idle true w0) as (w1 & E1 & Hc1 & Hs1 & Ha1 & Hn1);
      [congruence|].
    destruct (run_statements_auto transcript stmts [] w1 d')
      as (w2 & Hc2 & Hs2 & Ha2 & E2 & Hn2); try congruence.
    destruct (set_autocommit_idle false w2 Hs2)
      as (w3 & E3 & Hc3 & Hs3 & Ha3 & Hn3).
    assert (Hrun : step_run step false transcript w1 = (OK tt, w2)).
    { unfold _run_step, try_except. rewrite Hstmts.
      rewrite (bind_ok _ _ _ _ _ E2). reflexivity. }
    unfold bind at 1. unfold bind at 1. unfold get_autocommit at 1.
    unfold try_finally, with_cursor. rewrite (bind_ok _ _ _ _ _ E1), Hrun.
    rewrite Ha0, Hac, E3.
    exists w3. split; [reflexivity|]. repeat split; congruence.
Qed.

(** X8. A script whose statements all succeed, run on an idle connection
    with autocommit off: [execute] returns, every statement was sent, in
    the order of the chunks and of the source, the work of all of them
    is committed, whatever the transaction policy of the chunks, and
    the connection is idle with autocommit off again. *)
Theorem successful_run_commits_every_statement :
  forall chunks transcript (w : RunWorld) d',
    Forall (fun c => src c <> None) chunks ->
    autocommit w = false ->
    status w = Idle ->
    run_ok run_sql (script_statements sqlparse_parse chunks) (committed w)
    = Some d' ->
    exists w',
      exec_all chunks transcript w = (OK tt, w')
      /\ committed w' = d' /\ status w' = Idle /\ autocommit w' = false
      /\ sent w' = sent w ++ script_statements sqlparse_parse chunks.
Proof.
  intros chunks transcript w d' Hsrc. revert w.
  induction Hsrc as [|step later Hstep Hlater IH]; intros w Hac Hst Hok.
  - simpl in *. injection Hok as <-. exists w. rewrite app_nil_r.
    repeat split; auto.
  - cbn [script_statements flat_map] in *.
    fold (script_statements sqlparse_parse later) in *.
    destruct (statements sqlparse_parse step) as [stmts|e] eqn:Hstmts.
    + rewrite run_ok_app in Hok.
      destruct (run_ok run_sql (map str stmts) (committed w)) as [d1|] eqn:H1;
        [|discriminate].
      destruct (execute_chunk_ok step later transcript stmts w d1
                  Hstmts Hac Hst H1) as (w1 & E1 & Hc1 & Hs1 & Ha1 & Hn1).
      destruct (IH w1 Ha1 Hs1) as (w2 & E2 & Hc2 & Hs2 & Ha2 & Hn2);
        [rewrite Hc1; exact Hok|].
      exists w2. rewrite E1. split; [exact E2|].
      repeat split; try assumption.
      rewrite Hn2, Hn1, app_assoc. reflexivity.
    + unfold statements in Hstmts. destruct (src step); [discriminate|].
      congruence.
Qed.

(** The handler of [_run_step] for a chunk outside a transaction whose
    statements run with autocommit on up to one that fails. *)
Lemma run_step_auto_outcome step transcript ok bad more (w : RunWorld)
      d' code :
  statements sqlparse_parse step = OK (ok ++ bad :: more) ->
  autocommit w = true ->
  status w = Idle ->
  run_ok run_sql (map str ok) (committed w) = Some d' ->
  run_sql (str bad) d' = inr code ->
  exists w1,
    committed w1 = d' /\ status w1 = Idle /\ autocommit w1 = true
    /\ sent w1 = sent w ++ map str ok ++ [str bad]
    /\ step_run step false transcript w
       = (if pgcode_in (Some code) (allowed_errors step) then
            _ <- lookup DB errorcodes_lookup (Some code) ;;
            if transcript then
              name <- lookup DB errorcodes_lookup (Some code) ;;
              print transcript (ERROR (Some code) name)
            else ret tt
          else
            _ <- lookup DB errorcodes_lookup (Some code) ;;
            raise (PgError (Some code))) w1.
Proof.
  intros Hstmts Hac Hst Hok Hbad.
  destruct (run_statements_auto transcript ok (bad :: more) w d' Hac Hst Hok)
    as (_ & _ & _ & _ & H).
  destruct (H code Hbad) as (w1 & E1 & Hc1 & Hs1 & Ha1 & Hn1).
  exists w1. repeat split; try assumption.
  unfold _run_step, try_except. rewrite Hstmts.
  rewrite (bind_raise _ _ _ _ _ E1). reflexivity.
Qed.

(** X9. A chunk that runs outside a transaction and whose statement
    raises a database error with an allowed code, on an idle
    connection: the error does not leave [execute] and the run goes on
    with the next chunk, as for a chunk in a transaction, but the work
    of the statements before the error stays committed; the autocommit
    attribute of the connection is what it was before the chunk. *)
Theorem allowed_error_outside_transaction_keeps_work :
  forall step later transcript ok bad more (w : RunWorld) d' code,
    use_transaction step = false ->
    statements sqlparse_parse step = OK (ok ++ bad :: more) ->
    status w = Idle ->
    run_ok run_sql (map str ok) (committed w) = Some d' ->
    run_sql (str bad) d' = inr code ->
    In code (allowed_errors step) ->
    errorcodes_lookup code <> None ->
    exists w',
      exec_all (step :: later) transcript w = exec_all later transcript w'
      /\ committed w' = d' /\ status w' = Idle
      /\ autocommit w' = autocommit w
      /\ sent w' = sent w ++ map str ok ++ [str bad].
Proof.
  intros step later transcript ok bad more w d' code
         Htx Hstmts Hst Hok Hbad Hin Hname.
  cbn [execute]. rewrite Htx.
  destruct (print_fields _ transcript (CHUNK (label step)) w)
    as (w0 & E0 & Hc0 & Hs0 & Ha0 & Hn0).
  rewrite (bind_ok _ _ _ _ _ E0).
  destruct (set_autocommit_idle true w0) as (w1 & E1 & Hc1 & Hs1 & Ha1 & Hn1);
    [congruence|].
  destruct (run_step_auto_outcome step transcript ok bad more w1 d' code)
    as (w2 & Hc2 & Hs2 & Ha2 & Hn2 & E2); try congruence.
  apply pgcode_in_In in Hin. rewrite Hin in E2.
  destruct (errorcodes_lookup code) as [name|] eqn:Hl; [|congruence].
  assert (exists w3,
             step_run step false transcript w1 = (OK tt, w3)
             /\ committed w3 = committed w2 /\ status w3 = status w2
             /\ autocommit w3 = autocommit w2 /\ sent w3 = sent w2)
    as (w3 & E3 & Hc3 & Hs3 & Ha3 & Hn3).
  { rewrite E2. unfold lookup. rewrite Hl. unfold bind at 1, ret at 1.
    destruct transcript.
    - unfold bind at 1, ret at 1. apply print_fields.
    - exists w2. repeat split; reflexivity. }
  destruct (set_autocommit_idle (autocommit w0) w3)
    as (w4 & E4 & Hc4 & Hs4 & Ha4 & Hn4); [congruence|].
  unfold bind at 1. unfold bind at 1. unfold get_autocommit at 1.
  unfold try_finally, with_cursor. rewrite (bind_ok _ _ _ _ _ E1), E3, E4.
  exists w4. split; [reflexivity|]. repeat split; congruence.
Qed.

(** X10. A chunk that runs outside a transaction and whose statement
    raises a database error with a code that is not allowed and that
    the table of error codes knows, on an idle connection: [execute]
    raises the error, no later chunk runs, the work of the statements
    before the error stays committed, and the autocommit attribute of
    the connection is restored on the way out. *)
Theorem fatal_error_outside_transaction_restores_autocommit :
  forall step later transcript ok bad more (w : RunWorld) d' code,
    use_transaction step = false ->
    statements sqlparse_parse step = OK (ok ++ bad :: more) ->
    status w = Idle ->
    run_ok run_sql (map str ok) (committed w) = Some d' ->
    run_sql (str bad) d' = inr code ->
    ~ In code (allowed_errors step) ->
    errorcodes_lookup code <> None ->
    exists w',
      exec_all (step :: later) transcript w = (Raise (PgError (Some code)), w')
      /\ committed w' = d' /\ status w' = Idle
      /\ autocommit w' = autocommit w
      /\ sent w' = sent w ++ map str ok ++ [str bad].
Proof.
  intros step later transcript ok bad more w d' code
         Htx Hstmts Hst Hok Hbad Hnot Hname.
  cbn [execute]. rewrite Htx.
  destruct (print_fields _ transcript (CHUNK (label step)) w)
    as (w0 & E0 & Hc0 & Hs0 & Ha0 & Hn0).
  rewrite (bind_ok _ _ _ _ _ E0).
  destruct (set_autocommit_idle true w0) as (w1 & E1 & Hc1 & Hs1 & Ha1 & Hn1);
    [congruence|].
  destruct (run_step_auto_outcome step transcript ok bad more w1 d' code)
    as (w2 & Hc2 & Hs2 & Ha2 & Hn2 & E2); try congruence.
  destruct (pgcode_in (Some code) (allowed_errors step)) eqn:Hin.
  { apply pgcode_in_In in Hin. contradiction. }
  destruct (errorcodes_lookup code) as [name|] eqn:Hl; [|congruence].
  unfold lookup in E2. rewrite Hl in E2.
  destruct (set_autocommit_idle (autocommit w0) w2 Hs2)
    as (w4 & E4 & Hc4 & Hs4 & Ha4 & Hn4).
  unfold bind at 1. unfold bind at 1. unfold get_autocommit at 1.
  unfold try_finally, with_cursor. rewrite (bind_ok _ _ _ _ _ E1), E2.
  cbn [bind ret raise]. unfold bind, ret, raise. rewrite E4.
  exists w4. split; [reflexivity|]. repeat split; congruence.
Qed.

End ExecutorRuns.

(** ** The transcript *)

Section Transcript.

Variables DB Sql Out : Type.
Variable run_sql : Sql -> DB -> (DB * Z) + string.

Abbreviation TWorld := (World DB Sql Out).

Lemma same_connection_refl (w : TWorld) : same_connection w w.
Proof. repeat split. Qed.

Lemma same_run_ret {A : Type} (a : A) :
  same_run (ret a : M TWorld A) (ret a).
Proof. intros w1 w2 H. split; [reflexivity | exact H]. Qed.

Lemma same_run_raise {A : Type} e :
  same_run (raise e : M TWorld A) (raise e).
Proof. intros w1 w2 H. split; [reflexivity | exact H]. Qed.

Lemma same_run_bind {A B : Type} (m1 m2 : M TWorld A)
      (f1 f2 : A -> M TWorld B) :
  same_run m1 m2 ->
  (forall a, same_run (f1 a) (f2 a)) ->
  same_run (bind m1 f1) (bind m2 f2).
Proof.
  intros Hm Hf w1 w2 H. unfold bind. specialize (Hm w1 w2 H).
  destruct (m1 w1) as [r1 w1'], (m2 w2) as [r2 w2']. simpl in Hm.
  destruct Hm as [<- Hw]. destruct r1 as [a|e]; [apply Hf, Hw|].
  split; [reflexivity | exact Hw].
Qed.

Lemma same_run_print t1 l1 t2 l2 :
  same_run (print t1 l1 : M TWorld unit) (print t2 l2).
Proof.
  intros w1 w2 (Hc & Hs & Ha & Hn). unfold print.
  destruct t1, t2; simpl; repeat split; assumption.
Qed.

Lemma same_run_cursor_execute q :
  same_run (cursor_execute run_sql q : M TWorld Z) (cursor_execute run_sql q).
Proof.
  intros [c1 s1 a1 n1 t1] [c2 s2 a2 n2 t2] (Hc & Hs & Ha & Hn).
  simpl in *. subst. unfold cursor_execute. simpl.
  destruct s2 as [|d|].
  - destruct (run_sql q c2) as [[d' n]|code]; destruct a2; simpl;
      repeat split; reflexivity.
  - destruct (run_sql q d) as [[d' n]|code]; simpl; repeat split; reflexivity.
  - simpl. repeat split; reflexivity.
Qed.

Lemma same_run_commit : same_run (commit : M TWorld unit) commit.
Proof.
  intros [c1 s1 a1 n1 t1] [c2 s2 a2 n2 t2] (Hc & Hs & Ha & Hn).
  simpl in *. subst. unfold commit. simpl.
  destruct s2; simpl; repeat split; reflexivity.
Qed.

Lemma same_run_rollback : same_run (rollback : M TWorld unit) rollback.
Proof.
  intros [c1 s1 a1 n1 t1] [c2 s2 a2 n2 t2] (Hc & Hs & Ha & Hn).
  simpl in *. subst. unfold rollback. simpl. repeat split; reflexivity.
Qed.

Lemma same_run_get_autocommit :
  same_run (get_autocommit : M TWorld bool) get_autocommit.
Proof.
  intros [c1 s1 a1 n1 t1] [c2 s2 a2 n2 t2] (Hc & Hs & Ha & Hn).
  simpl in *. subst. unfold get_autocommit. simpl. repeat split; reflexivity.
Qed.

Lemma same_run_set_autocommit b :
  same_run (set_autocommit b : M TWorld unit) (set_autocommit b).
Proof.
  intros [c1 s1 a1 n1 t1] [c2 s2 a2 n2 t2] (Hc & Hs & Ha & Hn).
  simpl in *. subst. unfold set_autocommit. simpl.
  destruct s2; simpl; repeat split; reflexivity.
Qed.

Lemma same_run_try_except {A : Type} (b1 b2 : M TWorld A) h1 h2 :
  same_run b1 b2 ->
  (forall e, match h1 e, h2 e with
             | Some k1, Some k2 => same_run k1 k2
             | None, None => True
             | _, _ => False
             end) ->
  same_run (try_except b1 h1) (try_except b2 h2).
Proof.
  intros Hb Hh w1 w2 H. unfold try_except. specialize (Hb w1 w2 H).
  destruct (b1 w1) as [r1 w1'], (b2 w2) as [r2 w2']. simpl in Hb.
  destruct Hb as [<- Hw]. destruct r1 as [a|e]; [split; [reflexivity|exact Hw]|].
  specialize (Hh e). destruct (h1 e), (h2 e); try contradiction.
  - apply Hh, Hw.
  - split; [reflexivity | exact Hw].
Qed.

Lemma same_run_try_finally {A : Type} (b1 b2 : M TWorld A) f1 f2 :
  same_run b1 b2 -> same_run f1 f2 ->
  same_run (try_finally b1 f1) (try_finally b2 f2).
Proof.
  intros Hb Hf w1 w2 H. unfold try_finally. specialize (Hb w1 w2 H).
  destruct (b1 w1) as [r1 w1'], (b2 w2) as [r2 w2']. simpl in Hb.
  destruct Hb as [<- Hw]. specialize (Hf w1' w2' Hw).
  destruct (f1 w1') as [q1 w1''], (f2 w2') as [q2 w2'']. simpl in Hf.
  destruct Hf as [<- Hw']. destruct q1; split; try reflexivity; exact Hw'.
Qed.

Lemma same_run_with_connection {A : Type} (b1 b2 : M TWorld A) :
  same_run b1 b2 -> same_run (with_connection b1) (with_connection b2).
Proof.
  intros Hb w1 w2 H. unfold with_connection. specialize (Hb w1 w2 H).
  destruct (b1 w1) as [r1 w1'], (b2 w2) as [r2 w2']. simpl in Hb.
  destruct Hb as [<- Hw]. destruct r1 as [a|e].
  - apply (same_run_bind commit commit); [exact same_run_commit | | exact Hw].
    intros _. apply same_run_ret.
  - apply (same_run_bind rollback rollback);
      [exact same_run_rollback | | exact Hw].
    intros _. apply same_run_raise.
Qed.

Lemma silent_ret {A : Type} (a : A) : silent (ret a : M TWorld A).
Proof. intros w. reflexivity. Qed.

Lemma silent_raise {A : Type} e : silent (raise e : M TWorld A).
Proof. intros w. reflexivity. Qed.

Lemma silent_bind {A B : Type} (m : M TWorld A) (f : A -> M TWorld B) :
  silent m -> (forall a, silent (f a)) -> silent (bind m f).
Proof.
  intros Hm Hf w. unfold bind. specialize (Hm w).
  destruct (m w) as [[a|e] w']; simpl in *; [rewrite Hf|]; exact Hm.
Qed.

Lemma silent_print line : silent (print false line : M TWorld unit).
Proof. intros w. reflexivity. Qed.

Lemma silent_cursor_execute q :
  silent (cursor_execute run_sql q : M TWorld Z).
Proof.
  intros w. unfold cursor_execute. simpl.
  destruct (status w) as [|d|].
  - destruct (run_sql q (committed w)) as [[d' n]|code];
      destruct (autocommit w); reflexivity.
  - destruct (run_sql q d) as [[d' n]|code]; reflexivity.
  - reflexivity.
Qed.

Lemma silent_commit : silent (commit : M TWorld unit).
Proof. intros w. unfold commit. destruct (status w); reflexivity. Qed.

Lemma silent_rollback : silent (rollback : M TWorld unit).
Proof. intros w. reflexivity. Qed.

Lemma silent_set_autocommit b : silent (set_autocommit b : M TWorld unit).
Proof. intros w. unfold set_autocommit. destruct (status w); reflexivity. Qed.

Lemma silent_try_except {A : Type} (b : M TWorld A) h :
  silent b ->
  (forall e, match h e with Some k => silent k | None => True end) ->
  silent (try_except b h).
Proof.
  intros Hb Hh w. unfold try_except. specialize (Hb w).
  destruct (b w) as [[a|e] w']; simpl in *; [exact Hb|].
  specialize (Hh e). destruct (h e); [rewrite Hh|]; exact Hb.
Qed.

Lemma silent_try_finally {A : Type} (b : M TWorld A) f :
  silent b -> silent f -> silent (try_finally b f).
Proof.
  intros Hb Hf w. unfold try_finally. specialize (Hb w).
  destruct (b w) as [r w']. specialize (Hf w').
  destruct (f w') as [[u|e] w'']; simpl in *; congruence.
Qed.

Lemma silent_with_connection {A : Type} (b : M TWorld A) :
  silent b -> silent (with_connection b).
Proof.
  intros Hb w. unfold with_connection. specialize (Hb w).
  destruct (b w) as [[a|e] w']; cbn [snd] in Hb.
  - etransitivity; [|exact Hb].
    apply (silent_bind commit (fun _ => ret a) silent_commit
             (fun _ => silent_ret a)).
  - etransitivity; [|exact Hb].
    apply (silent_bind rollback (fun _ => raise e) silent_rollback
             (fun _ => silent_raise e)).
Qed.

End Transcript.

Section TranscriptOfRun.

Variable DB : Type.
Variable run_sql : string -> DB -> (DB * Z) + string.
Variable sqlparse_parse : string -> list Statement.
Variable errorcodes_lookup : string -> option string.

Lemma same_run_lookup pgcode :
  same_run (lookup DB errorcodes_lookup pgcode)
           (lookup DB errorcodes_lookup pgcode).
Proof.
  unfold lookup. destruct pgcode as [c|]; [|apply same_run_raise].
  destruct (errorcodes_lookup c); [apply same_run_ret | apply same_run_raise].
Qed.

Lemma silent_lookup pgcode : silent (lookup DB errorcodes_lookup pgcode).
Proof.
  unfold lookup. destruct pgcode as [c|]; [|apply silent_raise].
  destruct (errorcodes_lookup c); [apply silent_ret | apply silent_raise].
Qed.

Lemma same_run_statements stmts :
  same_run (run_statements DB run_sql true stmts)
           (run_statements DB run_sql false stmts).
Proof.
  induction stmts as [|s stmts IH]; cbn [run_statements].
  - apply same_run_ret.
  - apply same_run_bind; [apply same_run_print|]. intros _.
    apply same_run_bind; [apply same_run_cursor_execute|]. intros rows.
    apply same_run_bind; [apply same_run_print|]. intros _.
    apply same_run_bind; [|intros _; exact IH].
    destruct (0 <=? rows)%Z; [apply same_run_print | apply same_run_ret].
Qed.

Lemma silent_statements stmts :
  silent (run_statements DB run_sql false stmts).
Proof.
  induction stmts as [|s stmts IH]; cbn [run_statements].
  - apply silent_ret.
  - apply silent_bind; [apply silent_print|]. intros _.
    apply silent_bind; [apply silent_cursor_execute|]. intros rows.
    apply silent_bind; [apply silent_print|]. intros _.
    apply silent_bind; [|intros _; exact IH].
    destruct (0 <=? rows)%Z; [apply silent_print | apply silent_ret].
Qed.

Lemma same_run_step step do_commit :
  same_run
    (_run_step DB run_sql sqlparse_parse errorcodes_lookup step do_commit true)
    (_run_step DB run_sql sqlparse_parse errorcodes_lookup step do_commit false).
Proof.
  unfold _run_step. apply same_run_try_except.
  - destruct (statements sqlparse_parse step) as [stmts|e];
      [|apply same_run_raise].
    apply same_run_bind; [apply same_run_statements|]. intros _.
    destruct do_commit; [apply same_run_commit | apply same_run_ret].
  - intros [pgcode|k|m|m|m|m]; try exact I.
    destruct (pgcode_in pgcode (allowed_errors step)).
    + unfold lookup.
      destruct pgcode as [c|]; [destruct (errorcodes_lookup c) as [name|]|];
        intros w1 w2 H; unfold bind, ret, raise, print; simpl;
        (split; [reflexivity|]); destruct H as (Hc & Hs & Ha & Hn);
        repeat split; assumption.
    + apply same_run_bind; [apply same_run_lookup|]. intros _.
      apply same_run_raise.
Qed.

Lemma silent_step step do_commit :
  silent
    (_run_step DB run_sql sqlparse_parse errorcodes_lookup step do_commit false).
Proof.
  unfold _run_step. apply silent_try_except.
  - destruct (statements sqlparse_parse step) as [stmts|e];
      [|apply silent_raise].
    apply silent_bind; [apply silent_statements|]. intros _.
    destruct do_commit; [apply silent_commit | apply silent_ret].
  - intros [pgcode|k|m|m|m|m]; try exact I.
    destruct (pgcode_in pgcode (allowed_errors step));
      (apply silent_bind; [apply silent_lookup|]); intros _;
      [apply silent_ret | apply silent_raise].
Qed.

Lemma same_run_execute chunks :
  same_run
    (execute DB run_sql sqlparse_parse errorcodes_lookup chunks true)
    (execute DB run_sql sqlparse_parse errorcodes_lookup chunks false).
Proof.
  induction chunks as [|step later IH]; cbn [execute].
  - apply same_run_ret.
  - apply same_run_bind; [apply same_run_print|]. intros _.
    apply same_run_bind; [|intros _; exact IH].
    destruct (use_transaction step).
    + apply same_run_with_connection. apply same_run_step.
    + apply same_run_bind; [apply same_run_get_autocommit|]. intros ac.
      apply same_run_try_finally; [|apply same_run_set_autocommit].
      apply same_run_bind; [apply same_run_set_autocommit|]. intros _.
      apply same_run_step.
Qed.

Lemma silent_execute chunks :
  silent (execute DB run_sql sqlparse_parse errorcodes_lookup chunks false).
Proof.
  induction chunks as [|step later IH]; cbn [execute].
  - apply silent_ret.
  - apply silent_bind; [apply silent_print|]. intros _.
    apply silent_bind; [|intros _; exact IH].
    destruct (use_transaction step).
    + apply silent_with_connection. apply silent_step.
    + apply silent_bind; [intros w; reflexivity|]. intros ac.
      apply silent_try_finally; [|apply silent_set_autocommit].
      apply silent_bind; [apply silent_set_autocommit|]. intros _.
      apply silent_step.
Qed.

(** X11. The transcript is a record and nothing more: with and without
    a transcript, [execute] returns or raises the same, sends the same
    statements and leaves the same database and the same connection;
    and when it is given no transcript it writes none. *)
Theorem transcript_does_not_change_the_run :
  forall chunks (w : Run DB),
    fst (execute DB run_sql sqlparse_parse errorcodes_lookup chunks true w)
    = fst (execute DB run_sql sqlparse_parse errorcodes_lookup chunks false w)
    /\ same_connection
         (snd (execute DB run_sql sqlparse_parse errorcodes_lookup
                 chunks true w))
         (snd (execute DB run_sql sqlparse_parse errorcodes_lookup
                 chunks false w))
    /\ transcript_out
         (snd (execute DB run_sql sqlparse_parse errorcodes_lookup
                 chunks false w))
       = transcript_out w.
Proof.
  intros chunks w.
  destruct (same_run_execute chunks w w (same_connection_refl _ _ _ w))
    as [Hr Hw].
  split; [exact Hr|]. split; [exact Hw|]. apply silent_execute.
Qed.

End TranscriptOfRun.

(** X8 on the script without labels, whose second chunk runs outside a
    transaction. *)
Lemma successful_run_example :
  exists w',
    execute (list string) journal_run_sql parse_by_line pg_lookup
      unlabelled_chunks true (idle_world [])
    = (OK tt, w')
    /\ committed w' = ["SELECT 1;"; "SELECT 2;"] /\ status w' = Idle
    /\ autocommit w' = false
    /\ sent w' = sent (idle_world [] : Run (list string))
                 ++ script_statements parse_by_line unlabelled_chunks.
Proof.
  apply (successful_run_commits_every_statement
           (list string) journal_run_sql parse_by_line pg_lookup
           unlabelled_chunks true (idle_world [])).
  - repeat constructor; discriminate.
  - reflexivity.
  - reflexivity.
  - reflexivity.
Defined.

(** X9 on the first example chunk run outside a transaction. *)
Lemma allowed_error_outside_transaction_example :
  exists w',
    execute (list string) journal_run_sql parse_by_line pg_lookup
      [tolerant_load_notx; tolerant_next] false (idle_world [])
    = execute (list string) journal_run_sql parse_by_line pg_lookup
        [tolerant_next] false w'
    /\ committed w' = ["CREATE TABLE t (x int)"] /\ status w' = Idle
    /\ autocommit w' = autocommit (idle_world [] : Run (list string))
    /\ sent w' = ["CREATE TABLE t (x int)"; "INSERT INTO t VALUES (1)"].
Proof.
  apply (allowed_error_outside_transaction_keeps_work
           (list string) journal_run_sql parse_by_line pg_lookup
           tolerant_load_notx [tolerant_next] false
           [line_statement ("CREATE TABLE t (x int)" ++ nl)]
           (line_statement ("INSERT INTO t VALUES (1)" ++ nl)) []
           (idle_world []) ["CREATE TABLE t (x int)"] "23505");
    try reflexivity.
  - simpl. auto.
  - discriminate.
Defined.

(** X10 on the same chunk without its [allow] directive. *)
Lemma fatal_error_outside_transaction_example :
  exists w',
    execute (list string) journal_run_sql parse_by_line pg_lookup
      [strict_load_notx; tolerant_next] false (idle_world [])
    = (Raise (PgError (Some "23505")), w')
    /\ committed w' = ["CREATE TABLE t (x int)"] /\ status w' = Idle
    /\ autocommit w' = autocommit (idle_world [] : Run (list string))
    /\ sent w' = ["CREATE TABLE t (x int)"; "INSERT INTO t VALUES (1)"].
Proof.
  apply (fatal_error_outside_transaction_restores_autocommit
           (list string) journal_run_sql parse_by_line pg_lookup
           strict_load_notx [tolerant_next] false
           [line_statement ("CREATE TABLE t (x int)" ++ nl)]
           (line_statement ("INSERT INTO t VALUES (1)" ++ nl)) []
           (idle_world []) ["CREATE TABLE t (x int)"] "23505");
    try reflexivity.
  - simpl. tauto.
  - discriminate.
Defined.

(** ** Rows with a key *)

Lemma existsb_key_In {A : Type} (key : A -> string) k rows :
  existsb (fun r => String.eqb (key r) k) rows = true
  <-> In k (map key rows).
Proof.
  rewrite existsb_exists, in_map_iff. split.
  - intros (r & Hin & E). apply String.eqb_eq in E. eauto.
  - intros (r & E & Hin). exists r. split; [exact Hin|].
    apply String.eqb_eq, E.
Qed.

Section KeyedRows.

Variables (A : Type) (key : A -> string) (k : string) (f : A -> A).

(** [f] changes rows with the key [k] only, and keeps their key. *)
Hypothesis f_key : forall r, key (f r) = key r.
Hypothesis f_other : forall r, key r <> k -> f r = r.

Lemma map_keeps_keys rows : map key (map f rows) = map key rows.
Proof.
  induction rows as [|r rows IH]; simpl; [reflexivity|].
  rewrite f_key, IH. reflexivity.
Qed.

Lemma map_keeps_other_rows k' rows :
  k' <> k ->
  filter (fun r => String.eqb (key r) k') (map f rows)
  = filter (fun r => String.eqb (key r) k') rows.
Proof.
  intros Hne. induction rows as [|r rows IH]; simpl; [reflexivity|].
  rewrite f_key, IH.
  destruct (String.eqb_spec (key r) k') as [E|_]; [|reflexivity].
  rewrite f_other; [reflexivity | congruence].
Qed.

Lemma map_changes_rows_of_key rows :
  filter (fun r => String.eqb (key r) k) (map f rows)
  = map f (filter (fun r => String.eqb (key r) k) rows).
Proof.
  induction rows as [|r rows IH]; simpl; [reflexivity|].
  rewrite f_key, IH. destruct (String.eqb (key r) k); reflexivity.
Qed.

Lemma map_without_key rows :
  ~ In k (map key rows) -> map f rows = rows.
Proof.
  induction rows as [|r rows IH]; simpl; [reflexivity|].
  intros Hn. rewrite IH, f_other; [reflexivity | tauto | tauto].
Qed.

End KeyedRows.

Lemma rows_of_unique_key {A : Type} (key : A -> string) k rows :
  NoDup (map key rows) ->
  In k (map key rows) ->
  exists r, filter (fun r => String.eqb (key r) k) rows = [r] /\ key r = k.
Proof.
  induction rows as [|r rows IH]; simpl; [tauto|].
  intros Hnd. inversion Hnd as [|x xs Hx Hxs]; subst.
  destruct (String.eqb_spec (key r) k) as [E|Hne].
  - intros _. exists r. split; [|exact E]. f_equal.
    rewrite <- E in *. clear -Hx.
    induction rows as [|r' rows IH]; simpl in *; [reflexivity|].
    destruct (String.eqb_spec (key r') (key r)) as [E'|_]; [tauto|].
    apply IH. tauto.
  - intros [E|Hin]; [contradiction|]. apply IH; assumption.
Qed.

Lemma rows_without_key {A : Type} (key : A -> string) k rows :
  ~ In k (map key rows) ->
  filter (fun r => String.eqb (key r) k) rows = [].
Proof.
  induction rows as [|r rows IH]; simpl; [reflexivity|].
  intros Hn. destruct (String.eqb_spec (key r) k) as [E|_]; [tauto|].
  apply IH. tauto.
Qed.

(** An upsert: the row [new] replaces the rows with its key, or is
    added when there is none. *)
Lemma upsert_rows {A : Type} (key : A -> string) k (new : A) rows :
  key new = k ->
  let rows' :=
    if existsb (fun r => String.eqb (key r) k) rows
    then map (fun r => if String.eqb (key r) k then new else r) rows
    else rows ++ [new] in
  In k (map key rows')
  /\ (forall x, In x (map key rows) -> In x (map key rows'))
  /\ (forall k', k' <> k ->
                 filter (fun r => String.eqb (key r) k') rows'
                 = filter (fun r => String.eqb (key r) k') rows)
  /\ (NoDup (map key rows) ->
      NoDup (map key rows')
      /\ filter (fun r => String.eqb (key r) k) rows' = [new]).
Proof.
  intros Hnew.
  assert (Hk : forall r, key (if String.eqb (key r) k then new else r) = key r).
  { intros r. destruct (String.eqb_spec (key r) k); congruence. }
  assert (Ho : forall r, key r <> k ->
                         (if String.eqb (key r) k then new else r) = r).
  { intros r Hne. apply String.eqb_neq in Hne. rewrite Hne. reflexivity. }
  destruct (existsb (fun r => String.eqb (key r) k) rows) eqn:E; cbv zeta.
  - apply existsb_key_In in E.
    rewrite (map_keeps_keys _ key _ Hk). split; [exact E|].
    split; [auto|]. split.
    + intros k' Hne. apply (map_keeps_other_rows _ key k _ Hk Ho). exact Hne.
    + intros Hnd. split; [exact Hnd|].
      rewrite (map_changes_rows_of_key _ key k _ Hk).
      destruct (rows_of_unique_key key k rows Hnd E) as (r & -> & Hr).
      simpl. apply String.eqb_eq in Hr. rewrite Hr. reflexivity.
  - assert (Hn : ~ In k (map key rows)).
    { intros Hin. apply existsb_key_In in Hin. congruence. }
    rewrite map_app. simpl. rewrite Hnew. split.
    + apply in_or_app. right. left. reflexivity.
    + split; [intros x Hx; apply in_or_app; left; exact Hx|]. split.
      * intros k' Hne. rewrite filter_app. simpl. rewrite Hnew.
        destruct (String.eqb_spec k k') as [E'|_]; [congruence|].
        apply app_nil_r.
      * intros Hnd. split.
        -- apply NoDup_app; [exact Hnd | repeat constructor; simpl; tauto|].
           intros x Hx [<-|[]]. contradiction.
        -- rewrite filter_app, (rows_without_key key k rows Hn). simpl.
           rewrite Hnew, String.eqb_refl. reflexivity.
Qed.

(** ** Ledger statements and operations *)

Lemma bind_inv {S A B : Type} (m : M S A) (f : A -> M S B) s b s' :
  bind m f s = (OK b, s') ->
  exists a s1, m s = (OK a, s1) /\ f a s1 = (OK b, s').
Proof.
  unfold bind. destruct (m s) as [[a|e] s1]; [eauto | discriminate].
Qed.

(** A cursor that returns has run its statement on what it saw. *)
Lemma cursor_execute_inv {DB Sql Out : Type}
      (run_sql : Sql -> DB -> (DB * Z) + string)
      (w w' : World DB Sql Out) q n :
  status w <> InError ->
  cursor_execute run_sql q w = (OK n, w') ->
  run_sql q (visible w) = inl (visible w', n) /\ status w' <> InError.
Proof.
  intros Hst. unfold cursor_execute, visible. simpl.
  destruct (status w) as [|d|] eqn:E; [| |congruence].
  - destruct (run_sql q (committed w)) as [[d' k]|code];
      destruct (autocommit w); intros [= <- <-]; simpl; rewrite ?E;
      split; congruence.
  - destruct (run_sql q d) as [[d' k]|code]; intros [= <- <-]; simpl;
      split; congruence.
Qed.

(** A statement inside a transaction, accepted or rejected. *)
Lemma cursor_execute_in_transaction {DB Sql Out : Type}
      (run_sql : Sql -> DB -> (DB * Z) + string)
      (w : World DB Sql Out) q :
  autocommit w = false ->
  status w <> InError ->
  exists w',
    committed w' = committed w /\ autocommit w' = false
    /\ match run_sql q (visible w) with
       | inl (d', n) =>
           cursor_execute run_sql q w = (OK n, w')
           /\ status w' = InTransaction d'
       | inr code =>
           cursor_execute run_sql q w = (Raise (PgError (Some code)), w')
           /\ status w' = InError
       end.
Proof.
  intros Hac Hst. unfold cursor_execute, visible. simpl.
  destruct (status w) as [|d|] eqn:E; [| |congruence].
  - destruct (run_sql q (committed w)) as [[d' n]|code]; rewrite Hac;
      [exists (set_status (add_sent w q) (InTransaction d'))
      |exists (set_status (add_sent w q) InError)];
      simpl; repeat split; auto.
  - destruct (run_sql q d) as [[d' n]|code];
      [exists (set_status (add_sent w q) (InTransaction d'))
      |exists (set_status (add_sent w q) InError)];
      simpl; repeat split; auto.
Qed.

(** Every statement of the ledger operations keeps the ledger well
    formed. *)
Lemma run_ledger_sql_wf now q l l' n :
  run_ledger_sql (now, q) l = inl (l', n) ->
  ledger_wf l -> ledger_wf l'.
Proof.
  intros Hrun (Hss & Hsf & Href).
  unfold ledger_wf, stage_status_key, source_file_key in *.
  destruct q as [fn hash | stage fn | stage | stage | stage key];
    cbn [run_ledger_sql fst snd] in Hrun.
  - injection Hrun as <- _. cbn [stage_status source_file stage_file].
    destruct (upsert_rows filename fn (mkFileRow fn now hash) (source_file l)
                eq_refl) as (_ & Hin & _ & Hnd).
    split; [exact Hss|]. split; [apply Hnd, Hsf|].
    eapply Forall_impl; [|exact Href]. intros p [H1 H2]. split; [exact H1|].
    apply Hin, H2.
  - destruct (negb (has_stage l stage) || negb (has_file l fn)) eqn:E;
      [discriminate|].
    destruct (has_stage_file l stage fn); [discriminate|].
    injection Hrun as <- _. cbn [stage_status source_file stage_file].
    apply orb_false_iff in E as [E1 E2].
    apply negb_false_iff in E1, E2.
    split; [exact Hss|]. split; [exact Hsf|].
    apply Forall_app. split; [exact Href|]. constructor; [|constructor].
    split; [apply existsb_key_In, E1 | apply existsb_key_In, E2].
  - injection Hrun as <- _. cbn [stage_status source_file stage_file].
    destruct (upsert_rows stage_name stage (mkStageRow stage now None None)
                (stage_status l) eq_refl) as (_ & Hin & _ & Hnd).
    split; [apply Hnd, Hss|]. split; [exact Hsf|].
    eapply Forall_impl; [|exact Href]. intros p [H1 H2]. split; [|exact H2].
    apply Hin, H1.
  - injection Hrun as <- _. cbn [stage_status source_file stage_file].
    split; [exact Hss|]. split; [exact Hsf|].
    apply Forall_forall. intros p Hp. apply filter_In in Hp as [Hp _].
    rewrite Forall_forall in Href. apply Href, Hp.
  - injection Hrun as <- _. cbn [stage_status source_file stage_file].
    assert (Hk : map stage_name
                   (map (fun r => if String.eqb (stage_name r) stage
                                  then mkStageRow stage (started_at r)
                                                  (Some now) key
                                  else r) (stage_status l))
                 = map stage_name (stage_status l)).
    { apply map_keeps_keys. intros r.
      destruct (String.eqb_spec (stage_name r) stage); [|reflexivity].
      simpl. congruence. }
    rewrite Hk. split; [exact Hss|]. split; [exact Hsf|]. exact Href.
Qed.

Lemma filter_other_stage (other stage : string) (rows : list (string * string)) :
  other <> stage ->
  filter (fun p => String.eqb (fst p) other)
         (filter (fun p => negb (String.eqb (fst p) stage)) rows)
  = filter (fun p => String.eqb (fst p) other) rows.
Proof.
  intros Hne. induction rows as [|p rows IH]; simpl; [reflexivity|].
  destruct (String.eqb_spec (fst p) stage) as [E|_]; simpl.
  - destruct (String.eqb_spec (fst p) other) as [E'|_]; [congruence|exact IH].
  - rewrite IH. reflexivity.
Qed.

(** [start_stage] on a cursor, by its two statements. *)
Lemma start_stage_cursor_ledger now stage (w : LedgerWorld) :
  status w <> InError ->
  exists w' l1 n1 n2,
    start_stage ACursor now stage w = (OK tt, w')
    /\ status w' <> InError
    /\ run_ledger_sql (now, InsertStageStatus stage) (visible w) = inl (l1, n1)
    /\ run_ledger_sql (now, DeleteStageFile stage) l1 = inl (visible w', n2).
Proof.
  intros Hst. unfold start_stage, start_stage_statements, handle_execute.
  cbn [hasattr_cursor]. unfold bind at 1, ret at 1.
  destruct (cursor_execute_accepts run_ledger_sql w (now, InsertStageStatus stage)
              _ _ Hst eq_refl) as (w1 & E1 & Hv1 & Hs1).
  rewrite (bind_ok _ _ _ _ _ E1).
  destruct (cursor_execute_accepts run_ledger_sql w1 (now, DeleteStageFile stage)
              _ _ Hs1 eq_refl) as (w2 & E2 & Hv2 & Hs2).
  rewrite (bind_ok _ _ _ _ _ E2).
  exists w2. do 3 eexists. split; [reflexivity|]. split; [exact Hs2|].
  split; [reflexivity|]. rewrite Hv2, Hv1. reflexivity.
Qed.

(** [finish_stage] on a cursor, by its statement. *)
Lemma finish_stage_cursor_ledger now stage key (w : LedgerWorld) :
  status w <> InError ->
  exists w' n,
    finish_stage ACursor now stage key w = (OK tt, w')
    /\ status w' <> InError
    /\ run_ledger_sql (now, UpdateStageStatus stage key) (visible w)
       = inl (visible w', n).
Proof.
  intros Hst. unfold finish_stage, finish_stage_statements, handle_execute.
  cbn [hasattr_cursor]. unfold bind at 1, ret at 1.
  destruct (cursor_execute_accepts run_ledger_sql w
              (now, UpdateStageStatus stage key) _ _ Hst eq_refl)
    as (w1 & E1 & Hv1 & Hs1).
  rewrite (bind_ok _ _ _ _ _ E1).
  exists w1. eexists. split; [reflexivity|]. split; [exact Hs1|].
  rewrite Hv1. reflexivity.
Qed.

(** X12. Starting a stage again puts it back to its start: whatever the
    ledger said of the stage, finished or not, after [start_stage] it
    has exactly one row for the stage, with the time of the call as its
    start, no end and no key. The table satisfies its primary key
    before and after the call. *)
Theorem start_stage_resets_the_stage :
  forall now stage (w : LedgerWorld),
    status w <> InError ->
    stage_status_key (visible w) ->
    exists w',
      start_stage ACursor now stage w = (OK tt, w')
      /\ stage_rows (visible w') stage = [mkStageRow stage now None None]
      /\ stage_status_key (visible w').
Proof.
  intros now stage w Hst Hkey.
  destruct (start_stage_cursor_ledger now stage w Hst)
    as (w' & l1 & n1 & n2 & E & _ & H1 & H2).
  exists w'. split; [exact E|].
  cbn [run_ledger_sql fst snd] in H1, H2. injection H1 as <- _.
  injection H2 as H2 _. rewrite <- H2.
  unfold stage_rows, stage_status_key. cbn [stage_status].
  destruct (upsert_rows stage_name stage (mkStageRow stage now None None)
              (stage_status (visible w)) eq_refl) as (_ & _ & _ & Hnd).
  destruct (Hnd Hkey) as [Hk Hrows]. split; [exact Hrows | exact Hk].
Qed.

(** X13. [start_stage] touches its own stage only: the rows of every
    other stage in [stage_status] and in [stage_file] are what they
    were, and so is the whole of [source_file]. *)
Theorem start_stage_leaves_other_stages :
  forall now stage other (w : LedgerWorld),
    status w <> InError ->
    other <> stage ->
    exists w',
      start_stage ACursor now stage w = (OK tt, w')
      /\ stage_rows (visible w') other = stage_rows (visible w) other
      /\ stage_file_rows (visible w') other
         = stage_file_rows (visible w) other
      /\ source_file (visible w') = source_file (visible w).
Proof.
  intros now stage other w Hst Hne.
  destruct (start_stage_cursor_ledger now stage w Hst)
    as (w' & l1 & n1 & n2 & E & _ & H1 & H2).
  exists w'. split; [exact E|].
  cbn [run_ledger_sql fst snd] in H1, H2. injection H1 as <- _.
  injection H2 as H2 _. rewrite <- H2.
  unfold stage_rows, stage_file_rows.
  cbn [stage_status stage_file source_file].
  destruct (upsert_rows stage_name stage (mkStageRow stage now None None)
              (stage_status (visible w)) eq_refl) as (_ & _ & Hother & _).
  split; [apply Hother, Hne|]. split; [|reflexivity].
  apply filter_other_stage, Hne.
Qed.

(** X14. Starting a stage and then finishing it leaves exactly one row
    for the stage: it has the time of the start, the time of the finish
    as its end, and the key given to [finish_stage]. *)
Theorem finish_after_start_records_the_run :
  forall started finished stage key (w : LedgerWorld),
    status w <> InError ->
    stage_status_key (visible w) ->
    exists w1 w2,
      start_stage ACursor started stage w = (OK tt, w1)
      /\ finish_stage ACursor finished stage key w1 = (OK tt, w2)
      /\ stage_rows (visible w2) stage
         = [mkStageRow stage started (Some finished) key].
Proof.
  intros started finished stage key w Hst Hkey.
  destruct (start_stage_cursor_ledger started stage w Hst)
    as (w1 & l1 & n1 & n2 & E1 & Hs1 & H1 & H2).
  destruct (finish_stage_cursor_ledger finished stage key w1 Hs1)
    as (w2 & n3 & E2 & _ & H3).
  exists w1, w2. split; [exact E1|]. split; [exact E2|].
  cbn [run_ledger_sql fst snd] in H1, H2, H3. injection H1 as <- _.
  injection H2 as H2 _. rewrite <- H2 in H3. injection H3 as H3 _.
  rewrite <- H3. unfold stage_rows. cbn [stage_status].
  destruct (upsert_rows stage_name stage (mkStageRow stage started None None)
              (stage_status (visible w)) eq_refl) as (_ & _ & _ & Hnd).
  destruct (Hnd Hkey) as [_ Hrows].
  rewrite (map_changes_rows_of_key _ stage_name stage).
  - unfold has_stage. rewrite Hrows. simpl. rewrite String.eqb_refl.
    reflexivity.
  - intros r. destruct (String.eqb_spec (stage_name r) stage);
      [simpl; congruence | reflexivity].
Qed.

(** X15. Finishing a stage that was never started is accepted and
    changes nothing: [finish_stage] returns and the ledger is the one
    from before the call. *)
Theorem finish_of_unknown_stage_changes_nothing :
  forall now stage key (w : LedgerWorld),
    status w <> InError ->
    has_stage (visible w) stage = false ->
    exists w',
      finish_stage ACursor now stage key w = (OK tt, w')
      /\ visible w' = visible w.
Proof.
  intros now stage key w Hst Hno.
  destruct (finish_stage_cursor_ledger now stage key w Hst)
    as (w' & n & E & _ & H).
  exists w'. split; [exact E|].
  cbn [run_ledger_sql fst snd] in H. injection H as H _. rewrite <- H.
  rewrite (map_without_key _ stage_name stage).
  - destruct (visible w); reflexivity.
  - intros r Hne. apply String.eqb_neq in Hne. rewrite Hne. reflexivity.
  - intros Hin. apply existsb_key_In in Hin. unfold has_stage in Hno.
    congruence.
Qed.

Section LedgerOperations.

Variable md5_hexdigest : list Byte.byte -> string.
Variable as_posix : string -> string.

Abbreviation register := (save_file md5_hexdigest as_posix).

(** X16. The ledger operations keep the ledger well formed: when
    [start_stage], [finish_stage] or [save_file] returns on a cursor,
    [stage_status] and [source_file] still have one row for a key at
    most and every row of [stage_file] still names a stage and a file
    that the ledger has. *)
Theorem ledger_operations_keep_ledger_well_formed :
  forall fs now path under stage key (w w' : LedgerWorld),
    status w <> InError ->
    ledger_wf (visible w) ->
    start_stage ACursor now stage w = (OK tt, w')
    \/ finish_stage ACursor now stage key w = (OK tt, w')
    \/ (exists run, register fs now path under = Some run
                    /\ run w = (OK tt, w')) ->
    ledger_wf (visible w').
Proof.
  intros fs now path under stage key w w' Hst Hwf [H | [H | (run & Hrun & H)]].
  - destruct (start_stage_cursor_ledger now stage w Hst)
      as (w2 & l1 & n1 & n2 & E & _ & H1 & H2).
    rewrite E in H. injection H as <-.
    eapply run_ledger_sql_wf; [exact H2|].
    eapply run_ledger_sql_wf; [exact H1 | exact Hwf].
  - destruct (finish_stage_cursor_ledger now stage key w Hst)
      as (w2 & n & E & _ & H1).
    rewrite E in H. injection H as <-.
    eapply run_ledger_sql_wf; [exact H1 | exact Hwf].
  - unfold save_file in Hrun.
    destruct (fs path) as [content|].
    + rewrite file_hash_md5 in Hrun. injection Hrun as <-.
      apply bind_inv in H. destruct H as (n1 & w1 & E1 & H).
      unfold handle_execute in E1.
      destruct (cursor_execute_inv _ _ _ _ _ Hst E1) as [R1 Hs1].
      apply run_ledger_sql_wf in R1; [|exact Hwf].
      destruct under as [[|c stage']|].
      * injection H as <-. exact R1.
      * apply bind_inv in H. destruct H as (n2 & w2 & E2 & H).
        injection H as <-. unfold handle_execute in E2.
        destruct (cursor_execute_inv _ _ _ _ _ Hs1 E2) as [R2 _].
        eapply run_ledger_sql_wf; [exact R2 | exact R1].
      * injection H as <-. exact R1.
    + injection Hrun as <-. discriminate H.
Qed.

(** X17. Registering a file under a stage that the ledger does not have
    fails: [save_file] raises the foreign key violation of its second
    statement; inside a transaction this leaves the transaction in
    error, so that the row of the file, written by the first statement,
    is not committed either. *)
Theorem save_file_under_unknown_stage_fails :
  forall fs now path c stage content (w : LedgerWorld),
    fs path = Some content ->
    autocommit w = false ->
    status w <> InError ->
    has_stage (visible w) (String c stage) = false ->
    exists run w',
      register fs now path (Some (String c stage)) = Some run
      /\ run w = (Raise (PgError (Some foreign_key_violation)), w')
      /\ status w' = InError
      /\ committed w' = committed w.
Proof.
  intros fs now path c stage content w Hfs Hac Hst Hno.
  unfold save_file. rewrite Hfs, file_hash_md5. eexists.
  destruct (cursor_execute_in_transaction run_ledger_sql w
              (now, InsertSourceFile (as_posix path) (md5_hexdigest content))
              Hac Hst) as (w1 & Hc1 & Ha1 & H1).
  cbn [run_ledger_sql fst snd] in H1. destruct H1 as [E1 Hs1].
  destruct (cursor_execute_in_transaction run_ledger_sql w1
              (now, InsertStageFile (String c stage) (as_posix path)) Ha1)
    as (w2 & Hc2 & Ha2 & H2); [congruence|].
  unfold visible in H2. rewrite Hs1 in H2.
  cbn [run_ledger_sql fst snd] in H2.
  unfold has_stage in *. cbn [stage_status] in H2. rewrite Hno in H2.
  cbn [negb orb] in H2. destruct H2 as [E2 Hs2].
  exists w2. split; [reflexivity|].
  unfold handle_execute. rewrite (bind_ok _ _ _ _ _ E1).
  rewrite (bind_raise _ _ _ _ _ E2).
  split; [reflexivity|]. split; [exact Hs2 | congruence].
Qed.

(** X18. [save_file] without a stage sends one statement, the upsert of
    [source_file] for the normalised path with the digest of the whole
    file: the loop that reads the file block by block ends for a file
    of any length and feeds the hash object every byte of it, in
    order. *)
Theorem save_file_sends_digest_of_whole_file :
  forall fs now path content,
    fs path = Some content ->
    exists run,
      register fs now path None = Some run
      /\ forall w : LedgerWorld,
          sent (snd (run w))
          = sent w ++ [(now, InsertSourceFile (as_posix path)
                               (md5_hexdigest content))].
Proof.
  intros fs now path content Hfs. unfold save_file.
  rewrite Hfs, file_hash_md5. eexists. split; [reflexivity|].
  intros w. unfold handle_execute, bind, cursor_execute. simpl.
  destruct (status w) as [|d|].
  - destruct (has_file (committed w) (as_posix path));
      destruct (autocommit w); reflexivity.
  - destruct (has_file d (as_posix path)); reflexivity.
  - reflexivity.
Qed.

End LedgerOperations.

(** X12 on an empty ledger. *)
Lemma start_stage_resets_example :
  exists w',
    start_stage ACursor 10 "x" (idle_world empty_ledger) = (OK tt, w')
    /\ stage_rows (visible w') "x" = [mkStageRow "x" 10 None None]
    /\ stage_status_key (visible w').
Proof.
  apply (start_stage_resets_the_stage 10%Z "x" (idle_world empty_ledger)).
  - discriminate.
  - constructor.
Defined.

(** X13 on an empty ledger. *)
Lemma start_stage_leaves_others_example :
  exists w',
    start_stage ACursor 10 "x" (idle_world empty_ledger) = (OK tt, w')
    /\ stage_rows (visible w') "y"
       = stage_rows (visible (idle_world empty_ledger : LedgerWorld)) "y"
    /\ stage_file_rows (visible w') "y"
       = stage_file_rows (visible (idle_world empty_ledger : LedgerWorld)) "y"
    /\ source_file (visible w')
       = source_file (visible (idle_world empty_ledger : LedgerWorld)).
Proof.
  apply (start_stage_leaves_other_stages 10%Z "x" "y"
           (idle_world empty_ledger)).
  - discriminate.
  - discriminate.
Defined.

(** X14 on an empty ledger. *)
Lemma finish_after_start_example :
  exists w1 w2,
    start_stage ACursor 10 "x" (idle_world empty_ledger) = (OK tt, w1)
    /\ finish_stage ACursor 20 "x" (Some "run-1") w1 = (OK tt, w2)
    /\ stage_rows (visible w2) "x"
       = [mkStageRow "x" 10 (Some 20%Z) (Some "run-1")].
Proof.
  apply (finish_after_start_records_the_run 10%Z 20%Z "x" (Some "run-1")
           (idle_world empty_ledger)).
  - discriminate.
  - constructor.
Defined.

(** X15 on an empty ledger. *)
Lemma finish_of_unknown_stage_example :
  exists w',
    finish_stage ACursor 20 "x" None (idle_world empty_ledger) = (OK tt, w')
    /\ visible w' = visible (idle_world empty_ledger : LedgerWorld).
Proof.
  apply (finish_of_unknown_stage_changes_nothing 20%Z "x" None
           (idle_world empty_ledger)).
  - discriminate.
  - reflexivity.
Defined.

(** X16 on the start of a stage in an empty ledger. *)
Lemma ledger_well_formed_example :
  ledger_wf
    (visible (snd (start_stage ACursor 10 "x" (idle_world empty_ledger)))).
Proof.
  apply (ledger_operations_keep_ledger_well_formed length_digest same_path
           (one_file []) 10%Z "f.txt" None "x" None
           (idle_world empty_ledger)).
  - discriminate.
  - repeat split; constructor.
  - left. reflexivity.
Defined.

(** X17 on an empty ledger. *)
Lemma save_file_under_unknown_stage_example :
  exists run w',
    save_file length_digest same_path (one_file [Byte.x00]) 10 "f.txt"
      (Some "x")
    = Some run
    /\ run (idle_world empty_ledger)
       = (Raise (PgError (Some foreign_key_violation)), w')
    /\ status w' = InError
    /\ committed w' = committed (idle_world empty_ledger : LedgerWorld).
Proof.
  apply (save_file_under_unknown_stage_fails length_digest same_path
           (one_file [Byte.x00]) 10%Z "f.txt" "x" "" [Byte.x00]
           (idle_world empty_ledger)).
  - reflexivity.
  - reflexivity.
  - discriminate.
  - reflexivity.
Defined.

(** X18 on the file [f.txt]. *)
Lemma save_file_digest_example :
  exists run,
    save_file length_digest same_path (one_file [Byte.x00; Byte.x01]) 10
      "f.txt" None
    = Some run
    /\ forall w : LedgerWorld,
        sent (snd (run w))
        = sent w ++ [(10%Z, InsertSourceFile (same_path "f.txt")
                              (length_digest [Byte.x00; Byte.x01]))].
Proof.
  apply (save_file_sends_digest_of_whole_file length_digest same_path
           (one_file [Byte.x00; Byte.x01]) 10%Z "f.txt").
  reflexivity.
Defined.

(** ** The connection string *)

(** X19. Without a user there are no credentials in the connection
    string: when [PGUSER] is not set, or set to nothing, the value of
    [PGPASSWORD] has no effect on what [db_url] returns. *)
Theorem db_url_ignores_password_without_user :
  forall (environ : Environ) password,
    environ "PGUSER" = None \/ environ "PGUSER" = Some "" ->
    db_url (setenv environ "PGPASSWORD" password) = db_url environ.
Proof.
  intros environ password Huser. unfold db_url, setenv.
  cbn [String.eqb Ascii.eqb Bool.eqb].
  destruct (environ "DB_URL"); [reflexivity|].
  destruct (environ "PGDATABASE"); [|reflexivity].
  destruct Huser as [-> | ->]; reflexivity.
Qed.

(** X20. [db_url] fails exactly when the environment has neither
    [DB_URL] nor [PGDATABASE], and then with the [KeyError] of the
    latter; with [DB_URL] set it returns that value whatever else is
    set or missing. *)
Theorem db_url_needs_DB_URL_or_PGDATABASE :
  forall environ : Environ,
    (forall e, db_url environ = Raise e ->
               e = KeyError (Some "PGDATABASE")
               /\ environ "DB_URL" = None /\ environ "PGDATABASE" = None)
    /\ (environ "DB_URL" = None -> environ "PGDATABASE" = None ->
        db_url environ = Raise (KeyError (Some "PGDATABASE")))
    /\ (forall url, environ "DB_URL" = Some url -> db_url environ = OK url).
Proof.
  intros environ. unfold db_url. split; [|split].
  - intros e. destruct (environ "DB_URL"); [discriminate|].
    destruct (environ "PGDATABASE"); [discriminate|].
    intros [= <-]. auto.
  - intros -> ->. reflexivity.
  - intros url ->. reflexivity.
Qed.

(** X19 on an environment that has the database only. *)
Lemma db_url_password_example :
  db_url (setenv only_database "PGPASSWORD" "secret") = db_url only_database.
Proof.
  apply (db_url_ignores_password_without_user only_database "secret").
  left. reflexivity.
Defined.

(** X20 on the empty environment. *)
Lemma db_url_empty_environment_example :
  db_url (fun _ => None) = Raise (KeyError (Some "PGDATABASE")).
Proof.
  apply (proj1 (proj2 (db_url_needs_DB_URL_or_PGDATABASE (fun _ => None))));
    reflexivity.
Defined.
